(** * ABCU advising assistance program (ProjectTwo.cpp): model and properties

    A shallow embedding of the single-file C++ program: the text utilities
    ([trim], [upper], [split_csv_simple]), the [Course] record, the
    [CourseCatalog] class over a hash map, the CSV loader
    [load_catalog_from_csv], the presentation functions and the menu loop
    of [main].

    Conventions.
    - A [std::string] is a [string] (a sequence of 8-bit characters).
    - The program never calls [setlocale], so [std::isspace] and
      [std::toupper] are those of the "C" locale.
    - [std::unordered_map<std::string, Course>] is a [gmap string Course];
      its unspecified iteration order only matters in [sorted_numbers],
      which is shown not to depend on it.
    - The file system is a partial function from paths to file contents;
      standard input is the list of its lines; standard output is the
      string written to it.
    - [size_t] is taken to be 64 bits wide. *)

From Stdlib Require Import Ascii String ZArith Lia.
From stdpp Require Import gmap strings list fin_maps sorting pretty.

Local Open Scope stdpp_scope.

(** ** Characters *)

(** The line feed character, written '\n' in the source. *)
Definition LF : ascii := "010"%char.
Definition nl : string := String LF "".

(** [std::isspace] in the "C" locale: HT, LF, VT, FF, CR and space. *)
Definition isspace (ch : ascii) : bool :=
  let n := N_of_ascii ch in
  ((9 <=? n) && (n <=? 13) || (n =? 32))%N.

(** [std::toupper] in the "C" locale: only 'a'..'z' are mapped. *)
Definition toupper (ch : ascii) : ascii :=
  let n := N_of_ascii ch in
  if ((97 <=? n) && (n <=? 122))%N then ascii_of_N (n - 32) else ch.

(** ** Utilities *)

(** The lambda of [trim]. *)
Definition is_space_or_cntrl (ch : ascii) : bool :=
  isspace ch || bool_decide (ch = "013"%char) || bool_decide (ch = LF).

(** First loop of [trim]: erase the front while it is a space. *)
Fixpoint trim_front (s : string) : string :=
  match s with
  | String ch s' => if is_space_or_cntrl ch then trim_front s' else s
  | EmptyString => EmptyString
  end.

(** Second loop of [trim]: pop the back while it is a space. *)
Fixpoint trim_back (s : string) : string :=
  match s with
  | EmptyString => EmptyString
  | String ch s' =>
      match trim_back s' with
      | EmptyString => if is_space_or_cntrl ch then EmptyString else String ch EmptyString
      | t => String ch t
      end
  end.

Definition trim (s : string) : string := trim_back (trim_front s).

Fixpoint upper (s : string) : string :=
  match s with
  | EmptyString => EmptyString
  | String c s' => String (toupper c) (upper s')
  end.

(** One call of [std::getline(stream, item, delim)] on a stream whose
    unread part is [s]: it fails when nothing is left to read; otherwise
    it extracts the characters up to the delimiter, which is consumed and
    not stored, or up to the end of the stream. *)
Fixpoint getline_chars (delim : ascii) (s : string) : string * string :=
  match s with
  | EmptyString => (EmptyString, EmptyString)
  | String c s' =>
      if decide (c = delim) then (EmptyString, s')
      else let '(item, rest) := getline_chars delim s' in (String c item, rest)
  end.

Definition getline (delim : ascii) (s : string) : option (string * string) :=
  match s with
  | EmptyString => None
  | _ => Some (getline_chars delim s)
  end.

(** The items read by [while (std::getline(stream, item, delim))]. *)
Fixpoint getline_all (delim : ascii) (s : string) : list string :=
  match s with
  | EmptyString => []
  | String c s' =>
      if decide (c = delim) then EmptyString :: getline_all delim s'
      else match getline_all delim s' with
           | [] => [String c EmptyString]
           | item :: items => String c item :: items
           end
  end.

Definition split_csv_simple (line : string) : list string :=
  trim <$> getline_all ","%char line.

(** ** Data model *)

Record Course := mkCourse {
  number : string;
  title : string;
  prereqs : list string
}.

Global Instance Course_eq_dec : EqDecision Course.
Proof. solve_decision. Defined.

Module CourseCatalog.

Record t := mk { data_ : gmap string Course }.

Definition new : t := mk ∅.

Definition upsert (c : Course) (cat : t) : t :=
  mk (<[upper (number c) := c]> (data_ cat)).

Definition contains (cat : t) (number : string) : bool :=
  bool_decide (is_Some (data_ cat !! upper number)).

Definition get (cat : t) (number : string) : option Course :=
  data_ cat !! upper number.

(** [std::sort] on strings: the keys in ascending order of [operator<],
    the lexicographic order on unsigned characters. *)
Definition sort_keys (keys : list string) : list string :=
  merge_sort String.le keys.

(** The keys are pushed in the iteration order of the map. *)
Definition sorted_numbers (cat : t) : list string :=
  sort_keys ((map_to_list (data_ cat)).*1).

Definition clear (cat : t) : t := mk ∅.

Definition empty (cat : t) : bool := bool_decide (data_ cat = ∅).

End CourseCatalog.

(** ** Loading *)

Definition FileSystem := string → option string.

(** The three ways a load fails; the source tells them apart by the
    message it stores in [err]. *)
Inductive LoadError :=
  | OpenError (file_path : string)
  | ParseError (line_no : N)
  | InvalidDataError (line_no : N).

Global Instance LoadError_eq_dec : EqDecision LoadError.
Proof. solve_decision. Defined.

Definition error_message (e : LoadError) : string :=
  match e with
  | OpenError file_path => "Could not open file: " +:+ file_path
  | ParseError line_no =>
      "Parse error on line " +:+ pretty line_no
        +:+ ": need at least courseNumber and courseTitle."
  | InvalidDataError line_no =>
      "Invalid data on line " +:+ pretty line_no
        +:+ ": empty course number or title."
  end.

(** [++line_no] on a [size_t]. *)
Definition size_t_incr (n : N) : N := ((n + 1) mod 2 ^ 64)%N.

(** The loop [for (i = 2; i < fields.size(); ++i)] over the fields that
    remain, pushing onto [c.prereqs]. *)
Fixpoint push_prereqs (fields : list string) (prereqs : list string)
    : list string :=
  match fields with
  | [] => prereqs
  | field :: fields' =>
      let prereq := upper field in
      if decide (prereq = "") then push_prereqs fields' prereqs
      else push_prereqs fields' (prereqs ++ [prereq])
  end.

(** The body of the reading loop, for a line that is not blank (and
    already trimmed): the error it returns with, or the record that is
    upserted.  [num] and [name] are the locals [number] and [title]. *)
Definition parse_fields (line_no : N) (line : string) : LoadError + Course :=
  let fields := split_csv_simple line in
  if decide (length fields < 2) then inl (ParseError line_no)
  else
    let num := upper (nth 0 fields "") in
    let name := nth 1 fields "" in
    if decide (num = "" ∨ name = "") then inl (InvalidDataError line_no)
    else
      let c := mkCourse num name [] in
      inr (mkCourse (number c) (title c)
             (push_prereqs (drop 2 fields) (prereqs c))).

(** The loop [while (std::getline(fin, line))] over the lines that remain. *)
Fixpoint load_lines (lines : list string) (line_no : N)
    (temp : CourseCatalog.t) : LoadError + CourseCatalog.t :=
  match lines with
  | [] => inr temp
  | line :: lines' =>
      let line_no := size_t_incr line_no in
      let line := trim line in
      if decide (line = "") then load_lines lines' line_no temp
      else
        match parse_fields line_no line with
        | inl e => inl e
        | inr c => load_lines lines' line_no (CourseCatalog.upsert c temp)
        end
  end.

(** The temporary catalog of [load_catalog_from_csv], or its error. *)
Definition load (fs : FileSystem) (file_path : string)
    : LoadError + CourseCatalog.t :=
  match fs file_path with
  | None => inl (OpenError file_path)
  | Some content =>
      load_lines (getline_all LF content) 0 CourseCatalog.new
  end.

(** [load_catalog_from_csv(file_path, out_catalog, err)]: the returned
    flag and the two reference parameters after the call. *)
Definition load_catalog_from_csv (fs : FileSystem) (file_path : string)
    (out_catalog : CourseCatalog.t) (err : string)
    : bool * CourseCatalog.t * string :=
  match load fs file_path with
  | inl e => (false, out_catalog, error_message e)
  | inr temp => (true, temp, err)
  end.

(** ** Presentation *)

Definition print_welcome : string :=
  "Welcome to the course planner." +:+ nl +:+ nl.

Definition print_menu : string :=
  "  1. Load Data Structure." +:+ nl
  +:+ "  2. Print Course List." +:+ nl
  +:+ "  3. Print Course." +:+ nl
  +:+ "  9. Exit" +:+ nl +:+ nl
  +:+ "What would you like to do? ".

Fixpoint print_course_lines (catalog : CourseCatalog.t)
    (numbers : list string) : string :=
  match numbers with
  | [] => ""
  | num :: numbers' =>
      match CourseCatalog.get catalog num with
      | Some c => number c +:+ ", " +:+ title c +:+ nl
      | None => ""
      end +:+ print_course_lines catalog numbers'
  end.

Definition print_course_list (catalog : CourseCatalog.t) : string :=
  let numbers := CourseCatalog.sorted_numbers catalog in
  "Here is a sample schedule:" +:+ nl
  +:+ print_course_lines catalog numbers +:+ nl.

(** The loop of [print_course_details] over the prerequisites from index
    [i] on; the separator is written when [i + 1 < prereqs.size ()]. *)
Fixpoint print_prereqs (catalog : CourseCatalog.t) (prereqs : list string)
    : string :=
  match prereqs with
  | [] => ""
  | pnum :: prereqs' =>
      match CourseCatalog.get catalog pnum with
      | Some pc => number pc
      | None => pnum
      end
      +:+ match prereqs' with [] => "" | _ => ", " end
      +:+ print_prereqs catalog prereqs'
  end.

Definition print_course_details (catalog : CourseCatalog.t)
    (user_input_number : string) : string :=
  let num := upper user_input_number in
  match CourseCatalog.get catalog num with
  | None => num +:+ " was not found." +:+ nl +:+ nl
  | Some c =>
      number c +:+ ", " +:+ title c +:+ nl
      +:+ match prereqs c with
          | [] => "Prerequisites: None" +:+ nl +:+ nl
          | _ =>
              "Prerequisites: " +:+ print_prereqs catalog (prereqs c)
              +:+ nl +:+ nl
          end
  end.

(** ** Main *)

(** The decimal digit a character stands for. *)
Definition digit_value (c : ascii) : option Z :=
  let n := N_of_ascii c in
  if ((48 <=? n) && (n <=? 57))%N then Some (Z.of_N (n - 48)) else None.

(** The longest run of decimal digits at the front of [s], as a number
    added to [10^k * acc]; [None] when [s] starts with no digit and
    [seen] is false. *)
Fixpoint read_digits (s : string) (acc : Z) (seen : bool) : option Z :=
  match s with
  | String c s' =>
      match digit_value c with
      | Some d => read_digits s' (10 * acc + d) true
      | None => if seen then Some acc else None
      end
  | EmptyString => if seen then Some acc else None
  end.

Fixpoint skip_spaces (s : string) : string :=
  match s with
  | String c s' => if isspace c then skip_spaces s' else s
  | EmptyString => EmptyString
  end.

Definition INT_MIN : Z := - 2 ^ 31.
Definition INT_MAX : Z := 2 ^ 31 - 1.

(** [std::stoi(s)]: leading white space is skipped, a sign is optional,
    the digits that follow are read in base ten and what comes after them
    is ignored.  [None] stands for the exception thrown when there is no
    digit ([std::invalid_argument]) or when the value is not an [int]
    ([std::out_of_range]). *)
Definition stoi (s : string) : option Z :=
  let s := skip_spaces s in
  let '(negative, s) :=
    match s with
    | String "-"%char s' => (true, s')
    | String "+"%char s' => (false, s')
    | _ => (false, s)
    end in
  match read_digits s 0 false with
  | None => None
  | Some v =>
      let v := if negative : bool then (- v)%Z else v in
      if decide (INT_MIN ≤ v ≤ INT_MAX)%Z then Some v else None
  end.

Definition invalid_option (shown : string) : string :=
  shown +:+ " is not a valid option." +:+ nl +:+ nl.

Definition load_prompt : string :=
  "Enter the file name to load (e.g., CS 300 ABCU_Advising_Program_Input.csv): ".

Definition details_prompt : string :=
  "What course do you want to know about? ".

Definition input_cancelled : string := "Input cancelled." +:+ nl +:+ nl.

Definition enter_option : string :=
  "Please enter a menu option." +:+ nl +:+ nl.

Definition load_first : string :=
  "Please load the data structure first (option 1)." +:+ nl +:+ nl.

(** Case 1 of the switch once a file name has been read: the output and
    the live catalog afterwards. *)
Definition option_load (fs : FileSystem) (filename : string)
    (catalog : CourseCatalog.t) : string * CourseCatalog.t :=
  let filename := trim filename in
  if decide (filename = "") then
    ("File name cannot be empty." +:+ nl +:+ nl, catalog)
  else
    let err := "" in
    let newCatalog := CourseCatalog.new in
    let '(ok, newCatalog, err) :=
      load_catalog_from_csv fs filename newCatalog err in
    if ok : bool then
      let catalog := newCatalog in
      ("Data loaded successfully ("
         +:+ pretty (length (CourseCatalog.sorted_numbers catalog))
         +:+ " courses)." +:+ nl +:+ nl,
       catalog)
    else ("Error: " +:+ err +:+ nl +:+ nl, catalog).

(** Case 3 of the switch once a course number has been read. *)
Definition option_details (catalog : CourseCatalog.t) (num : string)
    : string :=
  let num := trim num in
  if decide (num = "") then "Course number cannot be empty." +:+ nl +:+ nl
  else print_course_details catalog num.

(** The [while (running)] loop of [main]: what it writes, given the lines
    left on standard input and the live catalog.  Every iteration reads
    at least one line, and the loop ends when a read at the menu prompt
    fails or option 9 is chosen. *)
Fixpoint main_loop (fs : FileSystem) (input : list string)
    (catalog : CourseCatalog.t) : string :=
  print_menu +:+
  match input with
  | [] => ""
  | option_raw :: input' =>
      let option_raw := trim option_raw in
      if decide (option_raw = "") then
        enter_option +:+ main_loop fs input' catalog
      else if decide (2 < String.length option_raw) then
        invalid_option option_raw +:+ main_loop fs input' catalog
      else
        match stoi option_raw with
        | None => invalid_option option_raw +:+ main_loop fs input' catalog
        | Some 1%Z =>
            load_prompt
            +:+ match input' with
                | [] => input_cancelled +:+ main_loop fs input' catalog
                | filename :: input'' =>
                    let '(out, catalog) := option_load fs filename catalog in
                    out +:+ main_loop fs input'' catalog
                end
        | Some 2%Z =>
            (if CourseCatalog.empty catalog then load_first
             else print_course_list catalog)
            +:+ main_loop fs input' catalog
        | Some 3%Z =>
            if CourseCatalog.empty catalog then
              load_first +:+ main_loop fs input' catalog
            else
              details_prompt
              +:+ match input' with
                  | [] => input_cancelled +:+ main_loop fs input' catalog
                  | num :: input'' =>
                      option_details catalog num
                      +:+ main_loop fs input'' catalog
                  end
        | Some 9%Z => "Thank you for using the course planner!" +:+ nl
        | Some option => invalid_option (pretty option) +:+ main_loop fs input' catalog
        end
  end.

Definition main (fs : FileSystem) (input : list string) : string :=
  print_welcome +:+ main_loop fs input CourseCatalog.new.

(** ** Vocabulary of the properties *)

(** What the reading loop sees of a source line. *)
Definition blank (line : string) : Prop := trim line = "".
Definition fields_of (line : string) : list string :=
  split_csv_simple (trim line).
Definition line_id (line : string) : string :=
  upper (nth 0 (fields_of line) "").
Definition line_title (line : string) : string := nth 1 (fields_of line) "".
Definition line_prereqs (line : string) : list string :=
  filter (λ p, p ≠ "") (upper <$> drop 2 (fields_of line)).
Definition record_of (line : string) : Course :=
  mkCourse (line_id line) (line_title line) (line_prereqs line).

(** A line that is not blank parses when it has two fields at least, and
    neither its identifier nor its title is empty. *)
Definition well_formed (line : string) : Prop :=
  2 ≤ length (fields_of line) ∧ line_id line ≠ "" ∧ line_title line ≠ "".
Definition parses (line : string) : Prop := blank line ∨ well_formed line.

Global Instance blank_dec line : Decision (blank line).
Proof. unfold blank. apply _. Defined.
Global Instance well_formed_dec line : Decision (well_formed line).
Proof. unfold well_formed. apply _. Defined.
Global Instance parses_dec line : Decision (parses line).
Proof. unfold parses. apply _. Defined.

(** The identifiers of the lines that are not blank, in file order. *)
Definition file_ids (lines : list string) : list string :=
  line_id <$> filter (λ l, ¬ blank l) lines.

(** The catalog states the operations of the program can produce. *)
Inductive reachable : CourseCatalog.t → Prop :=
  | reachable_new : reachable CourseCatalog.new
  | reachable_upsert c cat :
      reachable cat → reachable (CourseCatalog.upsert c cat)
  | reachable_clear cat :
      reachable cat → reachable (CourseCatalog.clear cat)
  | reachable_load fs file_path cat err :
      reachable cat →
      reachable (load_catalog_from_csv fs file_path cat err).1.2.

(** The items of [l] with [sep] between them. *)
Fixpoint join (sep : string) (l : list string) : string :=
  match l with
  | [] => ""
  | [x] => x
  | x :: l' => x +:+ sep +:+ join sep l'
  end.

(** The catalog after the lines of a file that parses: every line that
    is not blank upserts its record, in file order. *)
Definition upsert_lines (lines : list string) (temp : CourseCatalog.t)
    : CourseCatalog.t :=
  foldl (λ cat l,
           if decide (blank l) then cat
           else CourseCatalog.upsert (record_of l) cat) temp lines.

(** The value of [line_no] after [k] lines have been read. *)
Definition line_no_at (k : nat) : N := Nat.iter k size_t_incr 0%N.

(** Every key is the upper-cased number of its record. *)
Definition keys_consistent (cat : CourseCatalog.t) : Prop :=
  ∀ k c, CourseCatalog.data_ cat !! k = Some c → k = upper (number c).

(** A catalog as a load leaves it: every record sits under its own
    number, which is in upper case, as are its prerequisites. *)
Definition normalized (cat : CourseCatalog.t) : Prop :=
  ∀ k c, CourseCatalog.data_ cat !! k = Some c →
    number c = k ∧ upper k = k ∧ Forall (λ p, upper p = p) (prereqs c).

(** A file system holding one file. *)
Definition single_file (path content : string) : FileSystem :=
  λ p, if decide (p = path) then Some content else None.

(** ** Sample files *)

(** The three-course file of the specification's scenario. *)
Definition courses_csv : string :=
  "CSCI100,Intro to CS" +:+ nl
  +:+ "CSCI101,Intro to Programming,CSCI100" +:+ nl
  +:+ "CSCI200,Data Structures,CSCI101,MATH201" +:+ nl.

(** A file whose third line has a single field. *)
Definition short_csv : string :=
  "CSCI100,Intro to CS" +:+ nl +:+ nl +:+ "CSCI101" +:+ nl.

(** A file whose second line has an empty title before a third field. *)
Definition untitled_csv : string :=
  "CSCI100,Intro to CS" +:+ nl +:+ "CSCI101,,CSCI100" +:+ nl.

(** A file of blank lines. *)
Definition blank_csv : string := "  " +:+ nl +:+ nl +:+ String "013" nl.

(** A file with the same identifier on two lines, in different cases. *)
Definition twice_csv : string :=
  "csci101,Foo" +:+ nl +:+ "MATH201,Calculus" +:+ nl
  +:+ "CSCI101,Bar,math201" +:+ nl.

Definition sample_fs : FileSystem :=
  λ p,
    if decide (p = "courses.csv") then Some courses_csv
    else if decide (p = "short.csv") then Some short_csv
    else if decide (p = "untitled.csv") then Some untitled_csv
    else if decide (p = "blank.csv") then Some blank_csv
    else if decide (p = "twice.csv") then Some twice_csv
    else if decide (p = "empty.csv") then Some ""
    else None.

Definition sample_catalog : CourseCatalog.t :=
  upsert_lines (getline_all LF courses_csv) CourseCatalog.new.

(** ** Vocabulary of the further properties *)

(** The carriage return, written '\r' in the source. *)
Definition CR : ascii := "013"%char.

(** Every character of [s] satisfies [P]. *)
Fixpoint all_chars (P : ascii → bool) (s : string) : bool :=
  match s with
  | EmptyString => true
  | String c s' => P c && all_chars P s'
  end.

Definition first_char (s : string) : option ascii :=
  match s with
  | EmptyString => None
  | String c _ => Some c
  end.

Fixpoint last_char (s : string) : option ascii :=
  match s with
  | EmptyString => None
  | String c EmptyString => Some c
  | String _ s' => last_char s'
  end.

(** The string is empty, or neither starts nor ends with white space. *)
Definition no_outer_space (s : string) : Prop :=
  (∀ c, first_char s = Some c → is_space_or_cntrl c = false)
  ∧ (∀ c, last_char s = Some c → is_space_or_cntrl c = false).

(** The number of occurrences of [d] in [s]. *)
Fixpoint count_char (d : ascii) (s : string) : nat :=
  match s with
  | EmptyString => 0
  | String c s' => (if decide (c = d) then 1 else 0) + count_char d s'
  end.

Definition ends_with (d : ascii) (s : string) : bool :=
  bool_decide (last_char s = Some d).

Definition is_lower (c : ascii) : bool :=
  let n := N_of_ascii c in ((97 <=? n) && (n <=? 122))%N.

(** The line the listing writes for a course. *)
Definition course_line (c : Course) : string :=
  number c +:+ ", " +:+ title c +:+ nl.

(** The strings of [l] one after the other. *)
Fixpoint concat_strings (l : list string) : string :=
  match l with
  | [] => ""
  | x :: l' => x +:+ concat_strings l'
  end.

(** Files for the further properties: the three courses with lines ended
    by a carriage return and a line feed, with blank lines in between,
    and in reverse order. *)
Definition courses_crlf_csv : string :=
  "CSCI100,Intro to CS" +:+ String CR nl
  +:+ "CSCI101,Intro to Programming,CSCI100" +:+ String CR nl
  +:+ "CSCI200,Data Structures,CSCI101,MATH201" +:+ String CR nl.

Definition courses_spaced_csv : string :=
  nl +:+ "CSCI100,Intro to CS" +:+ nl +:+ "  " +:+ nl
  +:+ "CSCI101,Intro to Programming,CSCI100" +:+ nl +:+ nl
  +:+ "CSCI200,Data Structures,CSCI101,MATH201" +:+ nl.

Definition courses_reversed_csv : string :=
  "CSCI200,Data Structures,CSCI101,MATH201" +:+ nl
  +:+ "CSCI101,Intro to Programming,CSCI100" +:+ nl
  +:+ "CSCI100,Intro to CS" +:+ nl.

Definition variant_fs : FileSystem :=
  λ p,
    if decide (p = "courses.csv") then Some courses_csv
    else if decide (p = "crlf.csv") then Some courses_crlf_csv
    else if decide (p = "spaced.csv") then Some courses_spaced_csv
    else if decide (p = "reversed.csv") then Some courses_reversed_csv
    else None.

(** ** Trimming and upper-casing, stated on the characters *)

(** [t] is [raw] without the white space around it. *)
Definition trimmed_of (raw t : string) : Prop :=
  no_outer_space t
  ∧ ∃ pre post,
      raw = pre +:+ t +:+ post
      ∧ all_chars is_space_or_cntrl pre = true
      ∧ all_chars is_space_or_cntrl post = true.

(** [t] is [s] with every lower-case letter replaced by the capital
    letter, 32 codes below, and every other character kept. *)
Definition upper_of (s t : string) : Prop :=
  String.length t = String.length s
  ∧ ∀ i a b,
      String.get i s = Some a → String.get i t = Some b →
      if is_lower a then N_of_ascii b = (N_of_ascii a - 32)%N else b = a.

(** [p] is the field [raw] trimmed, then upper-cased. *)
Definition normal_form (raw p : string) : Prop :=
  ∃ t, trimmed_of raw t ∧ upper_of t p.

(** The fields of a line as they are read, before each is trimmed. *)
Definition raw_fields (line : string) : list string :=
  getline_all ","%char (trim line).

(** A file with white space around the fields, lower-case identifiers, a
    repeated identifier and prerequisite fields of white space only. *)
Definition padded_csv : string :=
  "csci101, Foo" +:+ nl
  +:+ " math201 ,Calculus, ," +:+ nl
  +:+ " CsCi101 ,  Bar  , ,math201 ,  , csci100" +:+ nl.

(** * Properties *)

(** ** Utilities *)

Lemma toupper_idem c : toupper (toupper c) = toupper c.
Proof. destruct c as [[] [] [] [] [] [] [] []]; reflexivity. Qed.

Lemma upper_idem s : upper (upper s) = upper s.
Proof. induction s as [|c s IH]; simpl; [done|]. by rewrite toupper_idem, IH. Qed.

Lemma upper_empty s : upper s = "" ↔ s = "".
Proof. destruct s; simpl; split; congruence. Qed.

(** [getline_all] is the loop over [getline]. *)
Lemma getline_all_unfold delim s :
  getline_all delim s =
    match getline delim s with
    | None => []
    | Some (item, rest) => item :: getline_all delim rest
    end.
Proof.
  induction s as [|c s IH]; [done|].
  cbn [getline_all getline getline_chars].
  destruct (decide (c = delim)); [done|].
  rewrite IH. destruct s as [|c' s']; [done|].
  cbn [getline]. by destruct (getline_chars delim (String c' s')).
Qed.

(** ** The reading loop *)

Lemma push_prereqs_filter fields acc :
  push_prereqs fields acc = acc ++ filter (λ p, p ≠ "") (upper <$> fields).
Proof.
  revert acc. induction fields as [|f fields IH]; intros acc; simpl.
  - by rewrite app_nil_r.
  - rewrite filter_cons. destruct (decide (upper f = "")) as [E|E].
    + rewrite decide_False by (intros H; by apply H). apply IH.
    + rewrite decide_True by done. rewrite IH. by rewrite <- app_assoc.
Qed.

Lemma parse_fields_short line_no l :
  length (fields_of l) < 2 →
  parse_fields line_no (trim l) = inl (ParseError line_no).
Proof. intros H. unfold parse_fields. by rewrite decide_True. Qed.

Lemma parse_fields_invalid line_no l :
  2 ≤ length (fields_of l) → line_id l = "" ∨ line_title l = "" →
  parse_fields line_no (trim l) = inl (InvalidDataError line_no).
Proof.
  intros H1 H2. unfold parse_fields.
  rewrite decide_False by (unfold fields_of in H1; lia).
  by rewrite decide_True.
Qed.

Lemma parse_fields_well_formed line_no l :
  well_formed l → parse_fields line_no (trim l) = inr (record_of l).
Proof.
  intros (H1 & H2 & H3). unfold parse_fields.
  rewrite decide_False by (unfold fields_of in H1; lia).
  rewrite decide_False by (intros [?|?]; done).
  cbn [number title prereqs]. by rewrite push_prereqs_filter.
Qed.

Lemma parse_fields_inr line_no l c :
  parse_fields line_no (trim l) = inr c → well_formed l ∧ c = record_of l.
Proof.
  intros H. destruct (decide (well_formed l)) as [W|W].
  - rewrite parse_fields_well_formed in H by done. by simplify_eq.
  - exfalso. unfold well_formed in W.
    destruct (decide (length (fields_of l) < 2)).
    + by rewrite parse_fields_short in H.
    + rewrite parse_fields_invalid in H; [done|lia|].
      destruct (decide (line_id l = "")); [by left|].
      destruct (decide (line_title l = "")); [by right|].
      exfalso. apply W. split_and!; [lia|done..].
Qed.

Lemma line_no_small (k : nat) :
  (N.of_nat k < 2 ^ 64)%N → line_no_at k = N.of_nat k.
Proof.
  unfold line_no_at. induction k as [|k IH]; intros Hk; [done|].
  rewrite Nat.iter_succ, IH by lia. unfold size_t_incr.
  rewrite N.mod_small by lia. lia.
Qed.

Lemma load_lines_parses lines line_no temp :
  Forall parses lines →
  load_lines lines line_no temp = inr (upsert_lines lines temp).
Proof.
  intros H. revert line_no temp.
  induction H as [|l lines Hl _ IH]; intros line_no temp; [done|].
  cbn [load_lines upsert_lines foldl]. fold (blank l).
  destruct (decide (blank l)) as [B|B]; [apply IH|].
  destruct Hl as [?|W]; [done|].
  rewrite (parse_fields_well_formed _ _ W). apply IH.
Qed.

Lemma load_lines_inr lines line_no temp cat :
  load_lines lines line_no temp = inr cat → Forall parses lines.
Proof.
  revert line_no temp.
  induction lines as [|l lines IH]; intros line_no temp H; [constructor|].
  cbn [load_lines] in H. fold (blank l) in H.
  destruct (decide (blank l)) as [B|B].
  - constructor; [by left | by eapply IH].
  - destruct (parse_fields _ (trim l)) as [e|c] eqn:E; [done|].
    apply parse_fields_inr in E as [W _].
    constructor; [by right | by eapply IH].
Qed.

(** The loop stops at the first line that does not parse, with the
    number of that line. *)
Lemma load_lines_first_bad pre l post k temp :
  Forall parses pre → ¬ parses l →
  load_lines (pre ++ l :: post) (line_no_at k) temp =
    inl (if decide (length (fields_of l) < 2)
         then ParseError (line_no_at (S (k + length pre)))
         else InvalidDataError (line_no_at (S (k + length pre)))).
Proof.
  intros Hpre Hl. revert k temp.
  induction Hpre as [|p pre Hp _ IH]; intros k temp.
  - cbn [app load_lines length]. fold (blank l). rewrite Nat.add_0_r.
    change (size_t_incr (line_no_at k)) with (line_no_at (S k)).
    rewrite decide_False by (intros B; apply Hl; by left).
    case_decide as Hlen.
    + by rewrite parse_fields_short.
    + rewrite parse_fields_invalid; [done|lia|].
      destruct (decide (line_id l = "")); [by left|].
      destruct (decide (line_title l = "")); [by right|].
      exfalso. apply Hl. right. split_and!; [lia|done..].
  - cbn [app load_lines length]. fold (blank p).
    change (size_t_incr (line_no_at k)) with (line_no_at (S k)).
    replace (S (k + S (length pre))) with (S (S k + length pre)) by lia.
    destruct (decide (blank p)); [apply IH|].
    destruct Hp as [?|W]; [done|].
    rewrite (parse_fields_well_formed _ _ W). apply IH.
Qed.

(** A file with a line that does not parse never loads. *)
Lemma load_lines_bad lines line_no temp l :
  l ∈ lines → ¬ parses l → ∃ e, load_lines lines line_no temp = inl e.
Proof.
  intros Hin Hl. destruct (load_lines lines line_no temp) as [e|cat] eqn:E.
  - by exists e.
  - apply load_lines_inr in E. rewrite Forall_forall in E.
    destruct Hl. by apply E.
Qed.

(** ** The loader *)

Lemma load_inr fs file_path temp :
  load fs file_path = inr temp ↔
  ∃ content, fs file_path = Some content
    ∧ Forall parses (getline_all LF content)
    ∧ temp = upsert_lines (getline_all LF content) CourseCatalog.new.
Proof.
  unfold load. split.
  - destruct (fs file_path) as [content|]; [|done]. intros H.
    exists content. pose proof (load_lines_inr _ _ _ _ H) as HP.
    rewrite load_lines_parses in H by done. by simplify_eq.
  - intros (content & -> & HP & ->). by apply load_lines_parses.
Qed.

Lemma load_catalog_from_csv_failure fs file_path out_catalog err e :
  load fs file_path = inl e →
  load_catalog_from_csv fs file_path out_catalog err
  = (false, out_catalog, error_message e).
Proof. intros H. unfold load_catalog_from_csv. by rewrite H. Qed.

Lemma option_load_failure fs filename catalog e :
  trim filename ≠ "" → load fs (trim filename) = inl e →
  option_load fs filename catalog
  = ("Error: " +:+ error_message e +:+ nl +:+ nl, catalog).
Proof.
  intros Hne H. unfold option_load. rewrite decide_False by done.
  by rewrite (load_catalog_from_csv_failure _ _ _ _ _ H).
Qed.

Lemma option_load_changes fs filename catalog :
  (option_load fs filename catalog).2 ≠ catalog →
  load fs (trim filename) = inr (option_load fs filename catalog).2.
Proof.
  unfold option_load, load_catalog_from_csv.
  case_decide; [done|].
  by destruct (load fs (trim filename)) as [e|temp].
Qed.

(** C1. A load that fails, whatever the error (the file cannot be opened,
    a line has too few fields, an identifier or a title is empty), leaves
    the catalog it was given as it was: [load_catalog_from_csv] returns
    false with [out_catalog] untouched, option 1 of the menu keeps the live
    catalog and the loop goes on with it after one line of error message.
    The load succeeds exactly when the file opens and every one of its
    lines parses, and only then does the live catalog change. *)
Theorem load_all_or_nothing (fs : FileSystem) (catalog : CourseCatalog.t) :
  (∀ file_path err e,
     load fs file_path = inl e →
     load_catalog_from_csv fs file_path catalog err
     = (false, catalog, error_message e))
  ∧ (∀ filename e,
       load fs (trim filename) = inl e →
       (option_load fs filename catalog).2 = catalog)
  ∧ (∀ option_raw filename rest e,
       trim option_raw ≠ "" → String.length (trim option_raw) ≤ 2 →
       stoi (trim option_raw) = Some 1%Z →
       trim filename ≠ "" → load fs (trim filename) = inl e →
       main_loop fs (option_raw :: filename :: rest) catalog
       = print_menu +:+ load_prompt
         +:+ ("Error: " +:+ error_message e +:+ nl +:+ nl)
         +:+ main_loop fs rest catalog)
  ∧ (∀ file_path temp,
       load fs file_path = inr temp ↔
       ∃ content, fs file_path = Some content
         ∧ Forall parses (getline_all LF content)
         ∧ temp = upsert_lines (getline_all LF content) CourseCatalog.new)
  ∧ (∀ filename temp,
       trim filename ≠ "" → load fs (trim filename) = inr temp →
       (option_load fs filename catalog).2 = temp)
  ∧ (∀ filename,
       (option_load fs filename catalog).2 ≠ catalog →
       ∃ content, fs (trim filename) = Some content
         ∧ Forall parses (getline_all LF content)).
Proof.
  split_and!.
  - intros. by apply load_catalog_from_csv_failure.
  - intros filename e H. destruct (decide (trim filename = "")) as [E|E].
    + unfold option_load. by rewrite decide_True.
    + by rewrite (option_load_failure _ _ _ _ E H).
  - intros option_raw filename rest e H1 H2 H3 H4 H5.
    cbn [main_loop]. rewrite decide_False by done.
    rewrite decide_False by lia. rewrite H3.
    by rewrite (option_load_failure _ _ _ _ H4 H5).
  - apply load_inr.
  - intros filename temp Hne H. unfold option_load, load_catalog_from_csv.
    rewrite decide_False by done. by rewrite H.
  - intros filename H. apply option_load_changes in H.
    apply load_inr in H as (content & ? & ? & _). eauto.
Qed.

Lemma load_all_or_nothing_witness :
  (option_load sample_fs "short.csv" sample_catalog).2 = sample_catalog.
Proof.
  apply (proj1 (proj2 (load_all_or_nothing sample_fs sample_catalog))
           "short.csv" (ParseError 3)).
  vm_compute. reflexivity.
Defined.

(** C8. A line that is not blank and splits into fewer than two fields
    makes the load fail, with [out_catalog] untouched; when the lines
    before it parse, the error is the parse error that names the line by
    its position in the file, counted from 1 with blank lines included
    (as long as that number fits a [size_t]). *)
Theorem short_line_is_parse_error (fs : FileSystem)
    (file_path content : string) (pre : list string) (l : string)
    (post : list string) (out_catalog : CourseCatalog.t) (err : string) :
  fs file_path = Some content →
  getline_all LF content = pre ++ l :: post →
  ¬ blank l → length (fields_of l) < 2 →
  (∃ e, load fs file_path = inl e
        ∧ load_catalog_from_csv fs file_path out_catalog err
          = (false, out_catalog, error_message e))
  ∧ (Forall parses pre → (N.of_nat (S (length pre)) < 2 ^ 64)%N →
     load fs file_path = inl (ParseError (N.of_nat (S (length pre))))
     ∧ load_catalog_from_csv fs file_path out_catalog err
       = (false, out_catalog,
          "Parse error on line " +:+ pretty (S (length pre))
            +:+ ": need at least courseNumber and courseTitle.")).
Proof.
  intros Hfs Hlines Hb Hlen.
  assert (¬ parses l) as Hl.
  { intros [?|(? & _)]; [done|lia]. }
  split.
  - destruct (load_lines_bad (pre ++ l :: post) 0%N CourseCatalog.new l)
      as [e He]; [apply elem_of_app; right; left|done|].
    exists e. assert (load fs file_path = inl e) as Hload.
    { unfold load. by rewrite Hfs, Hlines. }
    split; [done|]. by apply load_catalog_from_csv_failure.
  - intros Hpre Hsmall.
    assert (load fs file_path = inl (ParseError (N.of_nat (S (length pre)))))
      as Hload.
    { unfold load. rewrite Hfs, Hlines.
      change 0%N with (line_no_at 0).
      rewrite (load_lines_first_bad _ _ _ _ _ Hpre Hl).
      rewrite decide_True by done. cbn [Nat.add].
      by rewrite line_no_small. }
    split; [done|]. by rewrite (load_catalog_from_csv_failure _ _ _ _ _ Hload).
Qed.

Lemma short_line_is_parse_error_witness :
  load sample_fs "short.csv" = inl (ParseError 3).
Proof.
  refine (proj1 (proj2 (short_line_is_parse_error sample_fs "short.csv"
            short_csv ["CSCI100,Intro to CS"; ""] "CSCI101" []
            CourseCatalog.new "" _ _ _ _) _ _)).
  - reflexivity.
  - reflexivity.
  - vm_compute. discriminate.
  - vm_compute. lia.
  - apply (bool_decide_unpack _). vm_compute. exact I.
  - vm_compute. reflexivity.
Defined.

(** C10. A file whose lines are all empty once trimmed, the empty file
    among them, loads: the call returns true and hands back a catalog
    with no record. *)
Theorem blank_file_loads_empty (fs : FileSystem) (file_path content : string)
    (out_catalog : CourseCatalog.t) (err : string) :
  fs file_path = Some content →
  Forall blank (getline_all LF content) →
  load fs file_path = inr CourseCatalog.new
  ∧ load_catalog_from_csv fs file_path out_catalog err
    = (true, CourseCatalog.new, err)
  ∧ CourseCatalog.empty CourseCatalog.new = true
  ∧ CourseCatalog.sorted_numbers CourseCatalog.new = [].
Proof.
  intros Hfs Hblank.
  assert (load fs file_path = inr CourseCatalog.new) as Hload.
  { unfold load. rewrite Hfs.
    rewrite load_lines_parses by (eapply Forall_impl; [done|by left]).
    f_equal. induction Hblank as [|l lines Hl _ IH]; [done|].
    cbn [upsert_lines foldl]. by rewrite decide_True. }
  split; [done|]. split; [|done].
  unfold load_catalog_from_csv. by rewrite Hload.
Qed.

Lemma blank_file_loads_empty_witness :
  load sample_fs "blank.csv" = inr CourseCatalog.new.
Proof.
  refine (proj1 (blank_file_loads_empty sample_fs "blank.csv" blank_csv
                   CourseCatalog.new "" _ _)).
  - reflexivity.
  - apply (bool_decide_unpack _). vm_compute. exact I.
Defined.

Example empty_file_loads_empty :
  load_catalog_from_csv sample_fs "empty.csv" sample_catalog ""
  = (true, CourseCatalog.new, "").
Proof. vm_compute. reflexivity. Qed.

(** ** The catalog *)

Lemma upsert_lines_app lines1 lines2 temp :
  upsert_lines (lines1 ++ lines2) temp
  = upsert_lines lines2 (upsert_lines lines1 temp).
Proof. apply foldl_app. Qed.

(** A property of catalogs that holds of [temp] and that every upsert
    of a record taken from a line preserves holds after the lines. *)
Lemma upsert_lines_ind (P : CourseCatalog.t → Prop) lines temp :
  P temp →
  (∀ l cat, ¬ blank l → P cat → P (CourseCatalog.upsert (record_of l) cat)) →
  P (upsert_lines lines temp).
Proof.
  intros Htemp Hstep. revert temp Htemp.
  induction lines as [|l lines IH]; intros temp Htemp; [done|].
  cbn [upsert_lines foldl]. apply IH. case_decide; auto.
Qed.

Lemma keys_consistent_upsert c cat :
  keys_consistent cat → keys_consistent (CourseCatalog.upsert c cat).
Proof.
  intros H k c'. unfold CourseCatalog.upsert. cbn [CourseCatalog.data_].
  rewrite lookup_insert. case_decide; [naive_solver|apply H].
Qed.

Lemma keys_consistent_new : keys_consistent CourseCatalog.new.
Proof. intros k c. cbn. by rewrite lookup_empty. Qed.

Lemma reachable_invariant cat : reachable cat → keys_consistent cat.
Proof.
  induction 1 as [|c cat _ IH|cat _ _|fs file_path cat err _ IH].
  - apply keys_consistent_new.
  - by apply keys_consistent_upsert.
  - apply keys_consistent_new.
  - unfold load_catalog_from_csv.
    destruct (load fs file_path) as [e|temp] eqn:E; [done|].
    apply load_inr in E as (content & _ & _ & ->). cbn [fst snd].
    apply upsert_lines_ind; [apply keys_consistent_new|].
    intros. by apply keys_consistent_upsert.
Qed.

(** The keys of a reachable catalog are in upper case. *)
Lemma reachable_key_upper cat k :
  reachable cat → is_Some (CourseCatalog.data_ cat !! k) → upper k = k.
Proof.
  intros H [c Hc]. rewrite (reachable_invariant _ H _ _ Hc).
  apply upper_idem.
Qed.

(** C3. Lookup folds case: a record that was upserted, or that a
    reachable catalog holds under some key, is what [get] returns for
    every query whose upper-cased form is that of its identifier; two
    queries that agree in upper case get the same answer; after loading
    the line [csci101,Foo] the three spellings of the identifier get the
    one record; and [get] answers every query, with a record or with
    none. *)
Theorem get_case_insensitive :
  (∀ cat c Q,
     upper Q = upper (number c) →
     CourseCatalog.get (CourseCatalog.upsert c cat) Q = Some c)
  ∧ (∀ cat K c Q,
       reachable cat → CourseCatalog.data_ cat !! K = Some c →
       upper Q = upper K → CourseCatalog.get cat Q = Some c)
  ∧ (∀ cat I Q,
       upper Q = upper I →
       CourseCatalog.get cat Q = CourseCatalog.get cat I
       ∧ CourseCatalog.contains cat Q = CourseCatalog.contains cat I)
  ∧ (∀ fs file_path,
       fs file_path = Some "csci101,Foo" →
       ∃ cat, load fs file_path = inr cat
         ∧ Forall (λ Q, CourseCatalog.get cat Q
                        = Some (mkCourse "CSCI101" "Foo" []))
             ["CSCI101"; "csci101"; "CsCi101"])
  ∧ (∀ cat Q,
       CourseCatalog.get cat Q = None
       ∨ ∃ c, CourseCatalog.get cat Q = Some c).
Proof.
  split_and!.
  - intros cat c Q H. unfold CourseCatalog.get, CourseCatalog.upsert.
    cbn [CourseCatalog.data_]. rewrite H. apply lookup_insert_eq.
  - intros cat K c Q Hr HK HQ. unfold CourseCatalog.get.
    rewrite HQ, (reachable_key_upper cat K); [done..|by eexists].
  - intros cat I Q H. unfold CourseCatalog.get, CourseCatalog.contains.
    by rewrite H.
  - intros fs file_path H. eexists. unfold load. rewrite H.
    split; [vm_compute; reflexivity|].
    repeat constructor.
  - intros cat Q. destruct (CourseCatalog.get cat Q) as [c|]; eauto.
Qed.

Lemma get_case_insensitive_witness :
  CourseCatalog.get sample_catalog "cScI200"
  = Some (mkCourse "CSCI200" "Data Structures" ["CSCI101"; "MATH201"]).
Proof.
  apply (proj1 (proj2 get_case_insensitive) sample_catalog "CSCI200").
  - change sample_catalog
      with (load_catalog_from_csv sample_fs "courses.csv"
              CourseCatalog.new "").1.2.
    apply reachable_load, reachable_new.
  - vm_compute. reflexivity.
  - vm_compute. reflexivity.
Defined.

(** ** The sorted view *)

(** [String.le] is the order of [std::string]'s [operator<=]: strings are
    compared character by character, as unsigned values, and a proper
    prefix comes first. *)
Lemma string_le_nil s : String.le "" s.
Proof. by destruct s. Qed.

Lemma string_le_cons_nil a s : ¬ String.le (String a s) "".
Proof. intros H. by vm_compute in H. Qed.

Lemma string_le_cons a s b t :
  String.le (String a s) (String b t)
  ↔ (N_of_ascii a < N_of_ascii b)%N ∨ a = b ∧ String.le s t.
Proof.
  unfold String.le, String.leb. cbn [String.compare].
  unfold Ascii.compare.
  destruct (N.compare_spec (N_of_ascii a) (N_of_ascii b)) as [E|E|E].
  - assert (a = b) as ->.
    { by rewrite <- (ascii_N_embedding a), <- (ascii_N_embedding b), E. }
    split; [by right|]. intros [?|[_ ?]]; [lia|done].
  - split; [by left|done].
  - split; [done|]. intros [?|[-> _]]; lia.
Qed.

Lemma elem_of_map_keys (m : gmap string Course) k :
  k ∈ (map_to_list m).*1 ↔ is_Some (m !! k).
Proof.
  rewrite list_elem_of_fmap. split.
  - intros ([k' c] & -> & H). apply elem_of_map_to_list in H. by exists c.
  - intros [c H]. exists (k, c). split; [done|]. by apply elem_of_map_to_list.
Qed.

Lemma sort_keys_Permutation keys : CourseCatalog.sort_keys keys ≡ₚ keys.
Proof. apply merge_sort_Permutation. Qed.

Lemma sort_keys_sorted keys :
  StronglySorted String.le (CourseCatalog.sort_keys keys).
Proof. apply (StronglySorted_merge_sort _). Qed.

(** Sorting does not depend on the order the keys come in. *)
Lemma sort_keys_order_irrelevant keys1 keys2 :
  keys1 ≡ₚ keys2 → CourseCatalog.sort_keys keys1 = CourseCatalog.sort_keys keys2.
Proof.
  intros H. apply (Sorted_unique String.le).
  - apply (Sorted_merge_sort _).
  - apply (Sorted_merge_sort _).
  - by rewrite !sort_keys_Permutation.
Qed.

Lemma StronglySorted_lookup_lt {A} (R : relation A) (l : list A) i j a b :
  StronglySorted R l → i < j → l !! i = Some a → l !! j = Some b → R a b.
Proof.
  intros H. revert i j. induction H as [|x l _ IH Hx]; intros i j Hij Hi Hj.
  - done.
  - destruct j as [|j]; [lia|]. destruct i as [|i]; simplify_eq/=.
    + rewrite Forall_forall in Hx. apply Hx. by eapply list_elem_of_lookup_2.
    + apply (IH i j); [lia|done..].
Qed.

(** C5. [sorted_numbers] returns the keys of the map, all of them and
    nothing else, each once and in ascending lexicographic order: of two
    positions the earlier holds the smaller string, never an equal one.
    The sequence is a function of the map alone: whatever order the keys
    are iterated in, sorting gives the same sequence. *)
Theorem sorted_numbers_ascending (cat : CourseCatalog.t) :
  (∀ k, k ∈ CourseCatalog.sorted_numbers cat
        ↔ is_Some (CourseCatalog.data_ cat !! k))
  ∧ length (CourseCatalog.sorted_numbers cat) = size (CourseCatalog.data_ cat)
  ∧ Sorted String.le (CourseCatalog.sorted_numbers cat)
  ∧ NoDup (CourseCatalog.sorted_numbers cat)
  ∧ (∀ i j a b,
       i < j →
       CourseCatalog.sorted_numbers cat !! i = Some a →
       CourseCatalog.sorted_numbers cat !! j = Some b →
       String.le a b ∧ a ≠ b)
  ∧ (∀ keys,
       keys ≡ₚ (map_to_list (CourseCatalog.data_ cat)).*1 →
       CourseCatalog.sort_keys keys = CourseCatalog.sorted_numbers cat).
Proof.
  unfold CourseCatalog.sorted_numbers.
  pose proof (sort_keys_Permutation (map_to_list (CourseCatalog.data_ cat)).*1)
    as HP.
  assert (NoDup (CourseCatalog.sort_keys
                   (map_to_list (CourseCatalog.data_ cat)).*1)) as HN.
  { rewrite HP. apply NoDup_fst_map_to_list. }
  split_and!.
  - intros k. rewrite HP. apply elem_of_map_keys.
  - by rewrite HP, length_fmap, length_map_to_list.
  - apply (Sorted_merge_sort _).
  - done.
  - intros i j a b Hij Hi Hj. split.
    + by eapply (StronglySorted_lookup_lt String.le), Hj;
        [apply sort_keys_sorted|..].
    + intros ->. pose proof (NoDup_lookup _ _ _ _ HN Hi Hj). lia.
  - intros keys. apply sort_keys_order_irrelevant.
Qed.

Lemma sorted_numbers_ascending_witness :
  String.le "CSCI100" "CSCI200" ∧ "CSCI100" ≠ "CSCI200".
Proof.
  apply (proj1 (proj2 (proj2 (proj2 (proj2
           (sorted_numbers_ascending sample_catalog))))) 0 2).
  - lia.
  - vm_compute. reflexivity.
  - vm_compute. reflexivity.
Defined.

(** ** Last write wins *)

Lemma line_id_upper l : upper (line_id l) = line_id l.
Proof. apply upper_idem. Qed.

Lemma upsert_lines_cons l lines temp :
  upsert_lines (l :: lines) temp
  = upsert_lines lines
      (if decide (blank l) then temp
       else CourseCatalog.upsert (record_of l) temp).
Proof. reflexivity. Qed.

Lemma filter_none {A} (P : A → Prop) `{∀ x, Decision (P x)} (l : list A) :
  (∀ x, x ∈ l → ¬ P x) → filter P l = [].
Proof.
  induction l as [|x l IH]; intros H0; [done|].
  rewrite filter_cons, decide_False by (apply H0; left).
  apply IH. intros y Hy. apply H0. by right.
Qed.

(** The record under a key after the lines of a file: that of the last
    line with this identifier, or what was there before. *)
Lemma upsert_lines_lookup lines temp k :
  CourseCatalog.data_ (upsert_lines lines temp) !! k =
    match last (filter (λ l, ¬ blank l ∧ line_id l = k) lines) with
    | Some l => Some (record_of l)
    | None => CourseCatalog.data_ temp !! k
    end.
Proof.
  revert temp. induction lines as [|l lines IH]; intros temp; [done|].
  rewrite upsert_lines_cons, IH, filter_cons. clear IH.
  destruct (decide (blank l)) as [B|B].
  - by rewrite decide_False by (by intros [? _]).
  - unfold CourseCatalog.upsert. cbn [CourseCatalog.data_ number record_of].
    rewrite line_id_upper. destruct (decide (line_id l = k)) as [E|E].
    + rewrite decide_True by done. rewrite last_cons.
      destruct (last _); [done|]. by rewrite E, lookup_insert_eq.
    + rewrite decide_False by (by intros [_ ?]).
      by rewrite lookup_insert_ne.
Qed.

Lemma upsert_lines_dom lines :
  dom (CourseCatalog.data_ (upsert_lines lines CourseCatalog.new))
  =@{gset string} list_to_set (file_ids lines).
Proof.
  apply set_eq. intros k.
  rewrite elem_of_dom, upsert_lines_lookup, elem_of_list_to_set.
  unfold file_ids. rewrite list_elem_of_fmap. cbn. rewrite lookup_empty.
  split.
  - destruct (last _) as [l|] eqn:E; [intros _|by intros [? ?]].
    apply last_Some_elem_of, list_elem_of_filter in E as [[? ?] ?].
    exists l. by rewrite list_elem_of_filter.
  - intros (l & -> & [B Hin]%list_elem_of_filter).
    destruct (last _) as [l'|] eqn:E; [done|].
    apply last_None in E.
    assert (l ∈ filter (λ l0, ¬ blank l0 ∧ line_id l0 = line_id l) lines)
      as Hl by by apply list_elem_of_filter.
    rewrite E in Hl. by apply not_elem_of_nil in Hl.
Qed.

(** ** Prerequisites *)

Lemma append_empty_r s : s +:+ "" = s.
Proof.
  induction s as [|c s IH]; [done|].
  change (String c (s +:+ "") = String c s). by rewrite IH.
Qed.

Lemma normalized_new : normalized CourseCatalog.new.
Proof. intros k c. cbn. by rewrite lookup_empty. Qed.

Lemma normalized_upsert_line l cat :
  normalized cat → normalized (CourseCatalog.upsert (record_of l) cat).
Proof.
  intros H k c. unfold CourseCatalog.upsert.
  cbn [CourseCatalog.data_ number record_of]. rewrite line_id_upper.
  rewrite lookup_insert. case_decide as E; [|apply H].
  intros [= <-]. subst k. cbn [number prereqs].
  split_and!; [done|apply line_id_upper|].
  unfold line_prereqs. apply Forall_forall.
  intros p [_ (f & -> & _)%list_elem_of_fmap]%list_elem_of_filter.
  apply upper_idem.
Qed.

Lemma load_normalized fs file_path cat :
  load fs file_path = inr cat → normalized cat.
Proof.
  intros (content & _ & _ & ->)%load_inr.
  apply upsert_lines_ind; [apply normalized_new|].
  intros. by apply normalized_upsert_line.
Qed.

(** In a catalog as a load leaves it, looking a prerequisite up changes
    nothing of what is written for it. *)
Lemma print_prereqs_join cat ps :
  normalized cat → Forall (λ p, upper p = p) ps →
  print_prereqs cat ps = join ", " ps.
Proof.
  intros Hcat. induction 1 as [|p ps Hp _ IH]; [done|].
  cbn [print_prereqs join]. rewrite IH.
  assert (match CourseCatalog.get cat p with
          | Some pc => number pc
          | None => p
          end = p) as ->.
  { unfold CourseCatalog.get. rewrite Hp.
    destruct (CourseCatalog.data_ cat !! p) as [pc|] eqn:E; [|done].
    by apply Hcat in E as [? _]. }
  destruct ps; [|done]. cbn [join]. by rewrite !append_empty_r.
Qed.

(** ** Empty fields *)

(** C6. A line that is not blank, that [split_csv_simple] cuts into two
    fields at least and whose identifier or title is empty makes the
    load fail, with [out_catalog] untouched; when the lines before it
    parse, the error is the invalid-data error that names the line by
    its position in the file, counted from 1 (as long as that number
    fits a [size_t]). *)
Theorem empty_field_is_invalid_data (fs : FileSystem)
    (file_path content : string) (pre : list string) (l : string)
    (post : list string) (out_catalog : CourseCatalog.t) (err : string) :
  fs file_path = Some content →
  getline_all LF content = pre ++ l :: post →
  ¬ blank l →
  2 ≤ length (fields_of l) → line_id l = "" ∨ line_title l = "" →
  (∃ e, load fs file_path = inl e
        ∧ load_catalog_from_csv fs file_path out_catalog err
          = (false, out_catalog, error_message e))
  ∧ (Forall parses pre → (N.of_nat (S (length pre)) < 2 ^ 64)%N →
     load fs file_path = inl (InvalidDataError (N.of_nat (S (length pre))))
     ∧ load_catalog_from_csv fs file_path out_catalog err
       = (false, out_catalog,
          "Invalid data on line " +:+ pretty (S (length pre))
            +:+ ": empty course number or title.")).
Proof.
  intros Hfs Hlines Hb Hlen Hempty.
  assert (¬ parses l) as Hl.
  { intros [?|(_ & ? & ?)]; [done|]. by destruct Hempty. }
  split.
  - destruct (load_lines_bad (pre ++ l :: post) 0%N CourseCatalog.new l)
      as [e He]; [apply elem_of_app; right; left|done|].
    exists e. assert (load fs file_path = inl e) as Hload.
    { unfold load. by rewrite Hfs, Hlines. }
    split; [done|]. by apply load_catalog_from_csv_failure.
  - intros Hpre Hsmall.
    assert (load fs file_path
            = inl (InvalidDataError (N.of_nat (S (length pre))))) as Hload.
    { unfold load. rewrite Hfs, Hlines.
      change 0%N with (line_no_at 0).
      rewrite (load_lines_first_bad _ _ _ _ _ Hpre Hl).
      rewrite decide_False by lia. cbn [Nat.add].
      by rewrite line_no_small. }
    split; [done|]. by rewrite (load_catalog_from_csv_failure _ _ _ _ _ Hload).
Qed.

Lemma empty_field_is_invalid_data_witness :
  load sample_fs "untitled.csv" = inl (InvalidDataError 2).
Proof.
  refine (proj1 (proj2 (empty_field_is_invalid_data sample_fs "untitled.csv"
            untitled_csv ["CSCI100,Intro to CS"] "CSCI101,,CSCI100" []
            CourseCatalog.new "" _ _ _ _ _) _ _)).
  - reflexivity.
  - reflexivity.
  - vm_compute. discriminate.
  - vm_compute. lia.
  - right. reflexivity.
  - apply (bool_decide_unpack _). vm_compute. exact I.
  - vm_compute. reflexivity.
Defined.

(** The line [CSCI101,] has an empty title, yet the load reports a parse
    error for it and not invalid data: reading the fields with
    [std::getline] yields nothing for the empty text after the last
    comma, so one field is left and the test on the number of fields
    comes first. *)
Lemma trailing_comma_is_parse_error :
  ¬ blank "CSCI101,"
  ∧ split_csv_simple (trim "CSCI101,") = ["CSCI101"]
  ∧ load (single_file "courses.csv" "CSCI101,") "courses.csv"
    = inl (ParseError 1)
  ∧ (∀ line_no,
       load (single_file "courses.csv" "CSCI101,") "courses.csv"
       ≠ inl (InvalidDataError line_no))
  ∧ load_catalog_from_csv (single_file "courses.csv" "CSCI101,")
      "courses.csv" CourseCatalog.new ""
    = (false, CourseCatalog.new,
       "Parse error on line 1: need at least courseNumber and courseTitle.").
Proof.
  assert (load (single_file "courses.csv" "CSCI101,") "courses.csv"
          = inl (ParseError 1)) as H by (vm_compute; reflexivity).
  split_and!.
  - vm_compute. discriminate.
  - vm_compute. reflexivity.
  - done.
  - intros line_no. rewrite H. discriminate.
  - by rewrite (load_catalog_from_csv_failure _ _ _ _ _ H).
Qed.

(** An empty identifier, and an empty title before a third field, are
    invalid data. *)
Example empty_fields_reported :
  load (single_file "courses.csv" ",Intro to CS") "courses.csv"
  = inl (InvalidDataError 1)
  ∧ load (single_file "courses.csv" "CSCI101,,CSCI100") "courses.csv"
    = inl (InvalidDataError 1)
  ∧ load (single_file "courses.csv" "CSCI101, ,") "courses.csv"
    = inl (InvalidDataError 1).
Proof. split_and!; vm_compute; reflexivity. Qed.

(** ** The menu *)

Lemma stoi_single c : stoi (String c "") = digit_value c.
Proof. destruct c as [[] [] [] [] [] [] [] []]; reflexivity. Qed.

Lemma digit_value_pretty c d :
  digit_value c = Some d → pretty d = String c "" ∧ (0 ≤ d ≤ 9)%Z.
Proof.
  destruct c as [[] [] [] [] [] [] [] []]; intros H; vm_compute in H;
    try discriminate H; injection H as <-; (split; [by vm_compute|lia]).
Qed.

(** X22. The menu line is refused as the specification has it whenever what is
    left of it after trimming is not of two characters: a blank line
    gets the prompt message, any other line that is not 1, 2, 3 or 9 is
    echoed as not valid, nothing is run and the loop goes on with the
    same catalog and the input that follows. *)
Lemma invalid_option_refused fs option_raw rest catalog :
  trim option_raw ∉ ["1"; "2"; "3"; "9"] →
  String.length (trim option_raw) ≠ 2 →
  main_loop fs (option_raw :: rest) catalog
  = print_menu
    +:+ (if decide (trim option_raw = "") then enter_option
         else invalid_option (trim option_raw))
    +:+ main_loop fs rest catalog.
Proof.
  intros Hnot Hlen. cbn [main_loop].
  destruct (decide (trim option_raw = "")) as [E|E]; [done|].
  destruct (decide (2 < String.length (trim option_raw))); [done|].
  destruct (trim option_raw) as [|c [|c' s]] eqn:Et; [done| |cbn in *; lia].
  rewrite stoi_single. destruct (digit_value c) as [d|] eqn:Ed; [|done].
  apply digit_value_pretty in Ed as [Hp Hd].
  assert (d ∈ [0; 4; 5; 6; 7; 8]%Z) as Hin.
  { assert (d = 0 ∨ d = 1 ∨ d = 2 ∨ d = 3 ∨ d = 4 ∨ d = 5 ∨ d = 6 ∨ d = 7
            ∨ d = 8 ∨ d = 9)%Z as Hc by lia.
    destruct Hc as [->|[->|[->|[->|[->|[->|[->|[->|[->| ->]]]]]]]]];
      first
        [ by apply (bool_decide_unpack _)
        | vm_compute in Hp; injection Hp as <-; exfalso; apply Hnot;
          by apply (bool_decide_unpack _) ]. }
  rewrite <- Hp.
  repeat (apply elem_of_cons in Hin as [->|Hin]; [done|]).
  by apply not_elem_of_nil in Hin.
Qed.

(** C7. A line of two characters gets past the length test and is read
    by [std::stoi], which stops at the first character that is no digit:
    [1x] runs the load command; [5x] is refused, with [5] in the message
    and not the line as typed; [+9] ends the program. *)
Theorem two_character_option_accepted (fs : FileSystem) (filename : string)
    (rest : list string) (catalog : CourseCatalog.t) :
  main_loop fs ("1x" :: filename :: rest) catalog
  = print_menu +:+ load_prompt
    +:+ (option_load fs filename catalog).1
    +:+ main_loop fs rest (option_load fs filename catalog).2
  ∧ main_loop fs ("5x" :: rest) catalog
    = print_menu +:+ invalid_option "5" +:+ main_loop fs rest catalog
  ∧ main_loop fs ("+9" :: rest) catalog
    = print_menu +:+ "Thank you for using the course planner!" +:+ nl.
Proof.
  split_and!.
  - change (main_loop fs ("1x" :: filename :: rest) catalog)
      with (print_menu +:+ load_prompt
            +:+ (let '(out, catalog) := option_load fs filename catalog in
                 out +:+ main_loop fs rest catalog)).
    by destruct (option_load fs filename catalog).
  - reflexivity.
  - reflexivity.
Qed.

(** ** The scenario of the three-course file *)

Example scenario_load :
  option_load sample_fs "courses.csv" CourseCatalog.new
  = ("Data loaded successfully (3 courses)." +:+ nl +:+ nl, sample_catalog).
Proof. vm_compute. reflexivity. Qed.

Example scenario_listing :
  print_course_list sample_catalog
  = "Here is a sample schedule:" +:+ nl
    +:+ "CSCI100, Intro to CS" +:+ nl
    +:+ "CSCI101, Intro to Programming" +:+ nl
    +:+ "CSCI200, Data Structures" +:+ nl +:+ nl.
Proof. vm_compute. reflexivity. Qed.

Example scenario_missing :
  print_course_details sample_catalog "math201"
  = "MATH201 was not found." +:+ nl +:+ nl.
Proof. vm_compute. reflexivity. Qed.

Example scenario_session :
  main sample_fs ["2"; "1"; "short.csv"; "1"; "courses.csv"; "3"; "csci101"; "9"]
  = print_welcome
    +:+ print_menu +:+ load_first
    +:+ print_menu +:+ load_prompt
    +:+ "Error: Parse error on line 3: need at least courseNumber and courseTitle."
    +:+ nl +:+ nl
    +:+ print_menu +:+ load_prompt
    +:+ "Data loaded successfully (3 courses)." +:+ nl +:+ nl
    +:+ print_menu +:+ details_prompt
    +:+ "CSCI101, Intro to Programming" +:+ nl
    +:+ "Prerequisites: CSCI100" +:+ nl +:+ nl
    +:+ print_menu +:+ "Thank you for using the course planner!" +:+ nl.
Proof. vm_compute. reflexivity. Qed.

(** * Further properties *)

(** ** Strings *)

Lemma app_cons c s t : String c s +:+ t = String c (s +:+ t).
Proof. reflexivity. Qed.

Lemma app_nil_l_string t : "" +:+ t = t.
Proof. reflexivity. Qed.

Lemma app_assoc_string s t u : (s +:+ t) +:+ u = s +:+ t +:+ u.
Proof.
  induction s as [|c s IH]; [done|]. by rewrite !app_cons, IH.
Qed.

Lemma all_chars_app P s t :
  all_chars P (s +:+ t) = all_chars P s && all_chars P t.
Proof.
  induction s as [|c s IH]; [done|].
  rewrite app_cons. cbn [all_chars]. rewrite IH. by destruct (P c).
Qed.

(** ** [trim] *)

Lemma trim_front_split s :
  ∃ pre, s = pre +:+ trim_front s ∧ all_chars is_space_or_cntrl pre = true.
Proof.
  induction s as [|c s (pre & IH1 & IH2)]; [by exists ""|].
  cbn [trim_front]. destruct (is_space_or_cntrl c) eqn:E.
  - exists (String c pre). rewrite app_cons, <- IH1. cbn. by rewrite E.
  - by exists "".
Qed.

Lemma trim_front_first s c :
  first_char (trim_front s) = Some c → is_space_or_cntrl c = false.
Proof.
  induction s as [|a s IH]; [done|]. cbn [trim_front].
  destruct (is_space_or_cntrl a) eqn:E; [done|]. by intros [= <-].
Qed.

Lemma trim_front_fixed s :
  (∀ c, first_char s = Some c → is_space_or_cntrl c = false) →
  trim_front s = s.
Proof. destruct s as [|a s]; [done|]. intros H. cbn. by rewrite (H a). Qed.

Lemma trim_back_split s :
  ∃ post, s = trim_back s +:+ post ∧ all_chars is_space_or_cntrl post = true.
Proof.
  induction s as [|c s (post & IH1 & IH2)]; [by exists ""|].
  cbn [trim_back]. destruct (trim_back s) as [|b t] eqn:Et.
  - destruct (is_space_or_cntrl c) eqn:E.
    + exists (String c post). rewrite app_nil_l_string in *.
      subst post. cbn. by rewrite E.
    + exists post. rewrite app_cons. by rewrite <- IH1.
  - exists post. rewrite app_cons. by rewrite <- IH1.
Qed.

Lemma trim_back_last s c :
  last_char (trim_back s) = Some c → is_space_or_cntrl c = false.
Proof.
  induction s as [|a s IH]; [done|]. cbn [trim_back].
  destruct (trim_back s) as [|b t] eqn:Et.
  - destruct (is_space_or_cntrl a) eqn:E; [done|]. by intros [= <-].
  - intros H. apply IH. by destruct t.
Qed.

Lemma trim_back_first s c :
  first_char (trim_back s) = Some c → first_char s = Some c.
Proof.
  destruct s as [|a s]; [done|]. cbn [trim_back].
  destruct (trim_back s); [|done]. by destruct (is_space_or_cntrl a).
Qed.

Lemma trim_back_fixed s :
  (∀ c, last_char s = Some c → is_space_or_cntrl c = false) →
  trim_back s = s.
Proof.
  induction s as [|a s IH]; [done|]. intros H. cbn [trim_back].
  destruct s as [|b s].
  - cbn. by rewrite (H a).
  - rewrite IH by (intros c Hc; by apply H). done.
Qed.

Lemma trim_no_outer_space s : no_outer_space (trim s).
Proof.
  split; intros c H.
  - apply trim_back_first in H. by apply trim_front_first in H.
  - by apply trim_back_last in H.
Qed.

(** X1. [trim] removes white space at both ends and nothing else: the
    string is its trimmed form between two runs of white space, and the
    trimmed form, when it is not empty, neither starts nor ends with
    white space. *)
Theorem trim_removes_outer_space (s : string) :
  (∃ pre post,
     s = pre +:+ trim s +:+ post
     ∧ all_chars is_space_or_cntrl pre = true
     ∧ all_chars is_space_or_cntrl post = true)
  ∧ no_outer_space (trim s).
Proof.
  split; [|apply trim_no_outer_space].
  destruct (trim_front_split s) as (pre & H1 & H2).
  destruct (trim_back_split (trim_front s)) as (post & H3 & H4).
  exists pre, post. split; [|done]. unfold trim. by rewrite <- H3.
Qed.

Lemma trim_fixed t : no_outer_space t → trim t = t.
Proof.
  intros [H1 H2]. unfold trim. rewrite (trim_front_fixed t) by done.
  by apply trim_back_fixed.
Qed.

Lemma trim_idempotent_aux s : trim (trim s) = trim s.
Proof. apply trim_fixed, trim_no_outer_space. Qed.

(** X2. Trimming twice is trimming once, and a string that neither
    starts nor ends with white space is left as it is. *)
Theorem trim_idempotent (s : string) :
  trim (trim s) = trim s ∧ (no_outer_space s → trim s = s).
Proof. split; [apply trim_idempotent_aux|apply trim_fixed]. Qed.

Lemma trim_idempotent_witness : trim "CSCI 100" = "CSCI 100".
Proof.
  apply (proj2 (trim_idempotent "CSCI 100")).
  split; intros c H; vm_compute in H; injection H as <-; reflexivity.
Defined.

Lemma trim_front_all_space s :
  all_chars is_space_or_cntrl s = true ↔ trim_front s = "".
Proof.
  induction s as [|c s IH]; [done|]. cbn.
  destruct (is_space_or_cntrl c); [apply IH|]. by split.
Qed.

Lemma trim_back_all_space s :
  all_chars is_space_or_cntrl s = true → trim_back s = "".
Proof.
  induction s as [|c s IH]; [done|]. cbn.
  destruct (is_space_or_cntrl c); [|done]. intros H. by rewrite IH.
Qed.

(** X3. A line is blank for the loader exactly when it consists of
    white space only (space, tab, line feed, vertical tab, form feed,
    carriage return), the empty line included. *)
Theorem blank_iff_all_space (line : string) :
  blank line ↔ all_chars is_space_or_cntrl line = true.
Proof.
  unfold blank. split.
  - intros H. destruct (trim_front_split line) as (pre & H1 & H2).
    destruct (trim_back_split (trim_front line)) as (post & H3 & H4).
    fold (trim line) in H3. rewrite H in H3. rewrite app_nil_l_string in H3.
    rewrite H1, H3, all_chars_app. by rewrite H2, H4.
  - intros H. unfold trim. by apply trim_front_all_space in H as ->.
Qed.

Lemma blank_iff_all_space_witness : blank (String CR "  ").
Proof. apply (proj2 (blank_iff_all_space (String CR "  "))). reflexivity. Defined.

Lemma trim_front_app_space pre s :
  all_chars is_space_or_cntrl pre = true →
  trim_front (pre +:+ s) = trim_front s.
Proof.
  induction pre as [|c pre IH]; [done|]. rewrite app_cons. cbn.
  destruct (is_space_or_cntrl c); [apply IH|done].
Qed.

Lemma trim_front_app s t :
  trim_front s ≠ "" → trim_front (s +:+ t) = trim_front s +:+ t.
Proof.
  induction s as [|c s IH]; [done|]. rewrite app_cons. cbn.
  destruct (is_space_or_cntrl c); [apply IH|done].
Qed.

Lemma trim_back_app_space s post :
  all_chars is_space_or_cntrl post = true →
  trim_back (s +:+ post) = trim_back s.
Proof.
  intros H. induction s as [|c s IH].
  - rewrite app_nil_l_string. by apply trim_back_all_space.
  - rewrite app_cons. cbn [trim_back]. by rewrite IH.
Qed.

Lemma trim_ignores_outer_space_aux (pre s post : string) :
  all_chars is_space_or_cntrl pre = true →
  all_chars is_space_or_cntrl post = true →
  trim (pre +:+ s +:+ post) = trim s.
Proof.
  intros Hpre Hpost. unfold trim. rewrite trim_front_app_space by done.
  destruct (decide (trim_front s = "")) as [E|E].
  - assert (trim_front (s +:+ post) = "") as ->; [|by rewrite E].
    apply trim_front_all_space. rewrite all_chars_app, Hpost.
    apply trim_front_all_space in E. by rewrite E.
  - rewrite trim_front_app by done. by apply trim_back_app_space.
Qed.

(** X4. White space added before or after a string does not change its
    trimmed form. *)
Theorem trim_ignores_outer_space (pre s post : string) :
  all_chars is_space_or_cntrl pre = true →
  all_chars is_space_or_cntrl post = true →
  trim (pre +:+ s +:+ post) = trim s.
Proof. apply trim_ignores_outer_space_aux. Qed.

Lemma trim_ignores_outer_space_witness :
  trim ("  " +:+ "Intro to CS" +:+ String CR "") = trim "Intro to CS".
Proof. by apply (trim_ignores_outer_space "  " "Intro to CS" (String CR "")). Defined.

(** ** [upper] *)

Lemma toupper_not_lower c : is_lower (toupper c) = false.
Proof. destruct c as [[] [] [] [] [] [] [] []]; reflexivity. Qed.

Lemma toupper_fixed c : is_lower c = false → toupper c = c.
Proof. unfold toupper, is_lower. by intros ->. Qed.

Lemma toupper_lower c :
  is_lower c = true →
  N_of_ascii (toupper c) = (N_of_ascii c - 32)%N.
Proof.
  destruct c as [[] [] [] [] [] [] [] []]; intros H;
    first [discriminate H | reflexivity].
Qed.

(** X5. [upper] works character by character: the result has the
    length of the string, no lower-case letter is left in it, a
    lower-case letter becomes the letter 32 codes below and every other
    character, and so every string without lower-case letters, is kept. *)
Theorem upper_changes_lower_case_only (s : string) :
  String.length (upper s) = String.length s
  ∧ (∀ i, String.get i (upper s) = toupper <$> String.get i s)
  ∧ all_chars (λ c, negb (is_lower c)) (upper s) = true
  ∧ (∀ c, is_lower c = true →
          N_of_ascii (toupper c) = (N_of_ascii c - 32)%N)
  ∧ (∀ c, is_lower c = false → toupper c = c)
  ∧ (all_chars (λ c, negb (is_lower c)) s = true → upper s = s).
Proof.
  split_and!.
  - induction s as [|c s IH]; [done|]. cbn. by rewrite IH.
  - induction s as [|c s IH]; intros i; [done|].
    destruct i as [|i]; [done|]. cbn. apply IH.
  - induction s as [|c s IH]; [done|]. cbn.
    by rewrite toupper_not_lower, IH.
  - apply toupper_lower.
  - apply toupper_fixed.
  - induction s as [|c s IH]; [done|]. cbn.
    intros [Hc Hs]%andb_prop. rewrite IH by done.
    rewrite toupper_fixed; [done|]. by destruct (is_lower c).
Qed.

Lemma upper_changes_lower_case_only_witness :
  upper "CSCI 100" = "CSCI 100".
Proof.
  apply (proj2 (proj2 (proj2 (proj2 (proj2
           (upper_changes_lower_case_only "CSCI 100")))))).
  reflexivity.
Defined.

(** ** Reading items up to a delimiter *)

Lemma getline_all_nil delim s : getline_all delim s = [] ↔ s = "".
Proof.
  destruct s as [|c s]; [done|]. cbn. split; [|done].
  destruct (decide (c = delim)); [done|].
  by destruct (getline_all delim s).
Qed.

Lemma last_char_cons c s : s ≠ "" → last_char (String c s) = last_char s.
Proof. by destruct s. Qed.

Lemma ends_with_cons d c s : s ≠ "" → ends_with d (String c s) = ends_with d s.
Proof. intros H. unfold ends_with. by rewrite last_char_cons. Qed.

Lemma join_cons_cons sep x y l :
  join sep (x :: y :: l) = x +:+ sep +:+ join sep (y :: l).
Proof. reflexivity. Qed.

(** X6. Reading a stream item by item loses nothing but a delimiter at
    the very end: the items joined by the delimiter, followed by the
    delimiter when the stream ended with one, are the stream.  This
    holds of the fields of a line before they are trimmed (the delimiter
    is the comma) and of the lines of a file (it is the line feed). *)
Theorem getline_all_join (delim : ascii) (s : string) :
  join (String delim "") (getline_all delim s)
  +:+ (if ends_with delim s then String delim "" else "")
  = s.
Proof.
  induction s as [|c s IH]; [done|]. cbn [getline_all].
  destruct (decide (s = "")) as [->|Hs].
  - cbn. unfold ends_with. cbn.
    destruct (decide (c = delim)) as [->|Hc]; cbn.
    + by rewrite bool_decide_true.
    + rewrite bool_decide_false by congruence. by rewrite append_empty_r.
  - rewrite ends_with_cons by done.
    assert (getline_all delim s ≠ []) as Hne by by rewrite getline_all_nil.
    destruct (decide (c = delim)) as [->|Hc].
    + destruct (getline_all delim s) as [|item items] eqn:E; [done|].
      rewrite join_cons_cons, app_nil_l_string, app_cons, app_nil_l_string.
      by rewrite app_cons, IH.
    + destruct (getline_all delim s) as [|item items] eqn:E; [done|].
      assert (join (String delim "") (String c item :: items)
              = String c (join (String delim "") (item :: items))) as ->
        by by destruct items.
      by rewrite app_cons, IH.
Qed.

(** X7. The number of items read is the number of delimiters, plus one
    when the stream does not end with a delimiter and is not empty: a
    line has as many fields as commas when it ends with a comma, and one
    more otherwise. *)
Theorem getline_all_length (delim : ascii) (s : string) :
  length (getline_all delim s)
  = count_char delim s
    + (if decide (s = "") then 0 else if ends_with delim s then 0 else 1)
  ∧ length (split_csv_simple s) = length (getline_all ","%char s).
Proof.
  split; [|unfold split_csv_simple; by rewrite length_fmap].
  induction s as [|c s IH]; [done|]. cbn [getline_all count_char].
  rewrite (decide_False (P:=String c s = "")) by done.
  destruct (decide (s = "")) as [->|Hs].
  - unfold ends_with. cbn.
    destruct (decide (c = delim)) as [->|Hc]; cbn.
    + by rewrite bool_decide_true.
    + by rewrite bool_decide_false by congruence.
  - rewrite ends_with_cons by done.
    assert (getline_all delim s ≠ []) as Hne by by rewrite getline_all_nil.
    destruct (decide (c = delim)) as [->|Hc].
    + cbn [length]. lia.
    + destruct (getline_all delim s) as [|item items] eqn:E; [done|].
      cbn [length] in *. lia.
Qed.

Lemma getline_all_no_delim delim s item :
  item ∈ getline_all delim s →
  all_chars (λ c, bool_decide (c ≠ delim)) item = true.
Proof.
  revert item. induction s as [|c s IH]; intros item; cbn [getline_all].
  - by intros ?%not_elem_of_nil.
  - destruct (decide (c = delim)) as [->|Hc].
    + intros [->|H]%elem_of_cons; [done|by apply IH].
    + destruct (getline_all delim s) as [|item' items].
      * intros ->%list_elem_of_singleton. cbn. by rewrite bool_decide_true.
      * intros [->|H]%elem_of_cons.
        -- cbn. rewrite bool_decide_true by done. apply IH. by left.
        -- apply IH. by right.
Qed.

Lemma all_chars_trim_front P s :
  all_chars P s = true → all_chars P (trim_front s) = true.
Proof.
  induction s as [|c s IH]; [done|]. cbn.
  intros [Hc Hs]%andb_prop. destruct (is_space_or_cntrl c); [by apply IH|].
  cbn. by rewrite Hc, Hs.
Qed.

Lemma all_chars_trim_back P s :
  all_chars P s = true → all_chars P (trim_back s) = true.
Proof.
  induction s as [|c s IH]; [done|]. cbn [all_chars trim_back].
  intros [Hc Hs]%andb_prop. specialize (IH Hs).
  destruct (trim_back s) as [|b t].
  - destruct (is_space_or_cntrl c); [done|]. cbn. by rewrite Hc.
  - cbn [all_chars] in *. by rewrite Hc, IH.
Qed.

(** X8. Every field [split_csv_simple] returns is free of commas and is
    trimmed: it is empty or neither starts nor ends with white space,
    and trimming it again changes nothing. *)
Theorem split_fields_trimmed (line field : string) :
  field ∈ split_csv_simple line →
  all_chars (λ c, bool_decide (c ≠ ","%char)) field = true
  ∧ no_outer_space field
  ∧ trim field = field.
Proof.
  unfold split_csv_simple.
  intros (item & -> & Hitem)%list_elem_of_fmap.
  apply getline_all_no_delim in Hitem.
  split_and!.
  - unfold trim. by apply all_chars_trim_back, all_chars_trim_front.
  - apply trim_no_outer_space.
  - apply trim_idempotent_aux.
Qed.

Lemma split_fields_trimmed_witness :
  trim "Intro to CS" = "Intro to CS".
Proof.
  apply (split_fields_trimmed "CSCI100 , Intro to CS ,").
  apply (bool_decide_unpack _). vm_compute. exact I.
Defined.

(** ** Catalog operations *)

(** X9. An upsert touches one key only: a query whose upper-cased form
    is not that of the record's number gets the answer it got before,
    from [get] and from [contains]. *)
Theorem upsert_keeps_other_keys (c : Course) (cat : CourseCatalog.t)
    (Q : string) :
  upper Q ≠ upper (number c) →
  CourseCatalog.get (CourseCatalog.upsert c cat) Q = CourseCatalog.get cat Q
  ∧ CourseCatalog.contains (CourseCatalog.upsert c cat) Q
    = CourseCatalog.contains cat Q.
Proof.
  intros H. unfold CourseCatalog.get, CourseCatalog.contains,
    CourseCatalog.upsert. cbn [CourseCatalog.data_].
  by rewrite lookup_insert_ne.
Qed.

Lemma upsert_keeps_other_keys_witness :
  CourseCatalog.get
    (CourseCatalog.upsert (mkCourse "math201" "Calculus" []) sample_catalog)
    "csci100"
  = CourseCatalog.get sample_catalog "csci100".
Proof.
  apply (upsert_keeps_other_keys (mkCourse "math201" "Calculus" [])
           sample_catalog "csci100").
  vm_compute. discriminate.
Defined.

(** X10. Of two upserts under the same key, in whatever case the numbers
    are written, the later is the one that counts; upserts under
    different keys can be done in either order. *)
Theorem upsert_upsert (c1 c2 : Course) (cat : CourseCatalog.t) :
  (upper (number c1) = upper (number c2) →
   CourseCatalog.upsert c2 (CourseCatalog.upsert c1 cat)
   = CourseCatalog.upsert c2 cat)
  ∧ (upper (number c1) ≠ upper (number c2) →
     CourseCatalog.upsert c2 (CourseCatalog.upsert c1 cat)
     = CourseCatalog.upsert c1 (CourseCatalog.upsert c2 cat)).
Proof.
  unfold CourseCatalog.upsert. cbn [CourseCatalog.data_]. split; intros H.
  - by rewrite H, insert_insert_eq.
  - f_equal. by apply insert_insert_ne.
Qed.

Lemma upsert_upsert_witness :
  CourseCatalog.upsert (mkCourse "CSCI100" "Intro" [])
    (CourseCatalog.upsert (mkCourse "csci100" "Old" ["X"]) CourseCatalog.new)
  = CourseCatalog.upsert (mkCourse "CSCI100" "Intro" []) CourseCatalog.new.
Proof.
  apply (proj1 (upsert_upsert (mkCourse "csci100" "Old" ["X"])
                  (mkCourse "CSCI100" "Intro" []) CourseCatalog.new)).
  reflexivity.
Defined.

Lemma elem_of_sorted_numbers cat k :
  k ∈ CourseCatalog.sorted_numbers cat
  ↔ is_Some (CourseCatalog.data_ cat !! k).
Proof.
  unfold CourseCatalog.sorted_numbers.
  rewrite sort_keys_Permutation. apply elem_of_map_keys.
Qed.

(** X11. [contains], [get] and [sorted_numbers] agree: a number is
    contained exactly when [get] finds a record for it, and exactly when
    its upper-cased form is among the sorted numbers. *)
Theorem contains_get_sorted (cat : CourseCatalog.t) (num : string) :
  (CourseCatalog.contains cat num = true
   ↔ ∃ c, CourseCatalog.get cat num = Some c)
  ∧ (CourseCatalog.contains cat num = true
     ↔ upper num ∈ CourseCatalog.sorted_numbers cat)
  ∧ (CourseCatalog.contains cat num = false
     ↔ CourseCatalog.get cat num = None).
Proof.
  unfold CourseCatalog.contains, CourseCatalog.get. split_and!.
  - by rewrite bool_decide_eq_true.
  - by rewrite bool_decide_eq_true, elem_of_sorted_numbers.
  - rewrite bool_decide_eq_false. symmetry. apply eq_None_not_Some.
Qed.

Lemma contains_get_sorted_witness :
  "CSCI101" ∈ CourseCatalog.sorted_numbers sample_catalog.
Proof.
  apply (proj1 (proj1 (proj2 (contains_get_sorted sample_catalog "csci101")))).
  vm_compute. reflexivity.
Defined.

(** X12. [empty] tells whether there is a record: it holds exactly when
    [sorted_numbers] is the empty list; it holds after [clear] and never
    after an [upsert]; and in a catalog the program can reach it holds
    exactly when [get] finds nothing whatever the query. *)
Theorem empty_iff_no_record (cat : CourseCatalog.t) :
  (CourseCatalog.empty cat = true ↔ CourseCatalog.sorted_numbers cat = [])
  ∧ CourseCatalog.empty (CourseCatalog.clear cat) = true
  ∧ (∀ c, CourseCatalog.empty (CourseCatalog.upsert c cat) = false)
  ∧ (CourseCatalog.empty cat = true → ∀ q, CourseCatalog.get cat q = None)
  ∧ (reachable cat → (∀ q, CourseCatalog.get cat q = None) →
     CourseCatalog.empty cat = true).
Proof.
  unfold CourseCatalog.empty. split_and!.
  - rewrite bool_decide_eq_true. unfold CourseCatalog.sorted_numbers. split.
    + intros ->. by rewrite map_to_list_empty.
    + intros H. apply map_to_list_empty_iff, fmap_nil_inv with fst.
      apply Permutation_nil_r. by rewrite <- sort_keys_Permutation, H.
  - by apply bool_decide_eq_true.
  - intros c. apply bool_decide_eq_false. cbn. apply insert_non_empty.
  - rewrite bool_decide_eq_true. intros H q. unfold CourseCatalog.get.
    by rewrite H, lookup_empty.
  - intros Hr H. apply bool_decide_eq_true, map_empty. intros k.
    destruct (CourseCatalog.data_ cat !! k) as [c|] eqn:E; [|done].
    specialize (H k). unfold CourseCatalog.get in H.
    rewrite (reachable_key_upper cat k) in H by (done || by eexists).
    congruence.
Qed.

Lemma empty_iff_no_record_witness :
  CourseCatalog.get (CourseCatalog.clear sample_catalog) "csci100" = None.
Proof.
  apply (proj1 (proj2 (proj2 (proj2
           (empty_iff_no_record (CourseCatalog.clear sample_catalog)))))).
  reflexivity.
Defined.

Lemma map_keys_insert_Some (m : gmap string Course) k c :
  is_Some (m !! k) → (map_to_list (<[k:=c]> m)).*1 ≡ₚ (map_to_list m).*1.
Proof.
  intros H. apply NoDup_Permutation; [apply NoDup_fst_map_to_list..|].
  intros k'. rewrite !elem_of_map_keys, lookup_insert.
  case_decide; [subst|done]. split; [done|by eexists].
Qed.

(** X13. How an upsert changes the sorted numbers: not at all when the
    number is contained already, in whatever case; otherwise the
    upper-cased number is inserted at its place in the order and the
    list is longer by one. *)
Theorem sorted_numbers_upsert (c : Course) (cat : CourseCatalog.t) :
  (CourseCatalog.contains cat (number c) = true →
   CourseCatalog.sorted_numbers (CourseCatalog.upsert c cat)
   = CourseCatalog.sorted_numbers cat)
  ∧ (CourseCatalog.contains cat (number c) = false →
     CourseCatalog.sorted_numbers (CourseCatalog.upsert c cat)
     = CourseCatalog.sort_keys
         (upper (number c) :: CourseCatalog.sorted_numbers cat)
     ∧ length (CourseCatalog.sorted_numbers (CourseCatalog.upsert c cat))
       = S (length (CourseCatalog.sorted_numbers cat))).
Proof.
  unfold CourseCatalog.contains, CourseCatalog.sorted_numbers,
    CourseCatalog.upsert. cbn [CourseCatalog.data_]. split.
  - intros H%bool_decide_eq_true.
    by apply sort_keys_order_irrelevant, map_keys_insert_Some.
  - intros H%bool_decide_eq_false. rewrite <- eq_None_not_Some in H.
    assert ((map_to_list (<[upper (number c):=c]> (CourseCatalog.data_ cat))).*1
            ≡ₚ upper (number c)
               :: CourseCatalog.sort_keys
                    (map_to_list (CourseCatalog.data_ cat)).*1) as HP.
    { rewrite map_to_list_insert by done. cbn.
      by rewrite sort_keys_Permutation. }
    split.
    + by apply sort_keys_order_irrelevant.
    + by rewrite sort_keys_Permutation, HP.
Qed.

Lemma sorted_numbers_upsert_witness :
  CourseCatalog.sorted_numbers
    (CourseCatalog.upsert (mkCourse "csci101" "Other" []) sample_catalog)
  = CourseCatalog.sorted_numbers sample_catalog.
Proof.
  apply (proj1 (sorted_numbers_upsert (mkCourse "csci101" "Other" [])
                  sample_catalog)).
  vm_compute. reflexivity.
Defined.

(** ** Load errors *)

Lemma first_line_that_fails lines :
  ¬ Forall parses lines →
  ∃ pre l post,
    lines = pre ++ l :: post ∧ Forall parses pre ∧ ¬ parses l.
Proof.
  induction lines as [|l lines IH]; intros H.
  - destruct H. constructor.
  - destruct (decide (parses l)) as [Hl|Hl].
    + destruct IH as (pre & l' & post & -> & Hpre & Hl').
      { intros Hlines. apply H. by constructor. }
      exists (l :: pre), l', post. split_and!; [done| |done].
      by constructor.
    + by exists [], l, lines.
Qed.

(** X14. An error of [load] says what happened.  The open error is
    returned for the path that was asked, when the file system has no
    file there.  A parse error or an invalid-data error carries the
    position, as counted by [line_no], of the first line of the file
    that does not parse: for the parse error this line is not blank and
    has fewer than two fields; for invalid data it has two fields at
    least and an empty identifier or an empty title. *)
Theorem load_error_is_accurate (fs : FileSystem) (file_path : string)
    (e : LoadError) :
  load fs file_path = inl e →
  match e with
  | OpenError p => p = file_path ∧ fs file_path = None
  | ParseError n =>
      ∃ content pre l post,
        fs file_path = Some content
        ∧ getline_all LF content = pre ++ l :: post
        ∧ Forall parses pre ∧ ¬ blank l
        ∧ length (fields_of l) < 2
        ∧ n = line_no_at (S (length pre))
  | InvalidDataError n =>
      ∃ content pre l post,
        fs file_path = Some content
        ∧ getline_all LF content = pre ++ l :: post
        ∧ Forall parses pre ∧ ¬ blank l
        ∧ 2 ≤ length (fields_of l)
        ∧ (line_id l = "" ∨ line_title l = "")
        ∧ n = line_no_at (S (length pre))
  end.
Proof.
  unfold load. destruct (fs file_path) as [content|] eqn:Hfs.
  2:{ by intros [= <-]. }
  intros H.
  destruct (first_line_that_fails (getline_all LF content))
    as (pre & l & post & Hlines & Hpre & Hl).
  { intros HP. by rewrite load_lines_parses in H. }
  rewrite Hlines in H. change 0%N with (line_no_at 0) in H.
  rewrite (load_lines_first_bad _ _ _ _ _ Hpre Hl) in H. cbn [Nat.add] in H.
  assert (¬ blank l) as Hb by (intros ?; apply Hl; by left).
  case_decide as Hlen; injection H as <-.
  - by exists content, pre, l, post.
  - exists content, pre, l, post. split_and!; [done..|lia| |done].
    destruct (decide (line_id l = "")); [by left|].
    destruct (decide (line_title l = "")); [by right|].
    exfalso. apply Hl. right. split_and!; [lia|done..].
Qed.

Lemma load_error_is_accurate_witness :
  ∃ content pre l post,
    sample_fs "short.csv" = Some content
    ∧ getline_all LF content = pre ++ l :: post
    ∧ Forall parses pre ∧ ¬ blank l
    ∧ length (fields_of l) < 2
    ∧ 3%N = line_no_at (S (length pre)).
Proof.
  apply (load_error_is_accurate sample_fs "short.csv" (ParseError 3)).
  vm_compute. reflexivity.
Defined.

Lemma app_inv_tail_string s1 s2 t : s1 +:+ t = s2 +:+ t → s1 = s2.
Proof.
  assert (∀ s u, String.length (s +:+ u) = String.length s + String.length u)
    as Hlen.
  { intros s u. induction s as [|c s IH]; [done|].
    rewrite app_cons. cbn. by rewrite IH. }
  revert s2. induction s1 as [|c1 s1 IH]; intros [|c2 s2] H.
  - done.
  - apply (f_equal String.length) in H. rewrite !Hlen in H. cbn in H. lia.
  - apply (f_equal String.length) in H. rewrite !Hlen in H. cbn in H. lia.
  - rewrite !app_cons in H. injection H as -> H. f_equal. by apply IH.
Qed.

(** X15. The message stored in [err] tells the errors apart: two
    different errors (in kind, in path or in line number) never give the
    same message. *)
Theorem error_message_inj (e1 e2 : LoadError) :
  error_message e1 = error_message e2 → e1 = e2.
Proof.
  destruct e1 as [p1|n1|n1], e2 as [p2|n2|n2]; cbn [error_message]; intros H;
    try (apply (f_equal first_char) in H; lazy in H; discriminate H).
  - by apply (inj (String.app _)) in H as ->.
  - apply (inj (String.app _)), app_inv_tail_string in H.
    by apply (inj pretty) in H as ->.
  - apply (inj (String.app _)), app_inv_tail_string in H.
    by apply (inj pretty) in H as ->.
Qed.

Lemma error_message_inj_witness : ParseError 3 = ParseError 3.
Proof. apply (error_message_inj (ParseError 3) (ParseError 3)). reflexivity. Defined.

(** ** Loaded records *)

Lemma upsert_lines_ind_parses (P : CourseCatalog.t → Prop) lines temp :
  Forall parses lines →
  P temp →
  (∀ l cat, well_formed l → P cat →
            P (CourseCatalog.upsert (record_of l) cat)) →
  P (upsert_lines lines temp).
Proof.
  intros Hlines Htemp Hstep. revert temp Htemp.
  induction Hlines as [|l lines Hl _ IH]; intros temp Htemp; [done|].
  rewrite upsert_lines_cons. apply IH. case_decide as B; [done|].
  destruct Hl as [?|W]; [done|]. by apply Hstep.
Qed.

Lemma nth_trimmed i (items : list string) :
  trim (nth i (trim <$> items) "") = nth i (trim <$> items) "".
Proof.
  revert i. induction items as [|x items IH]; intros [|i]; cbn;
    [done|done|apply trim_idempotent_aux|apply IH].
Qed.

(** ** What a load depends on *)

Lemma upsert_lines_skip_blank lines temp :
  upsert_lines (filter (λ l, ¬ blank l) lines) temp = upsert_lines lines temp.
Proof.
  revert temp. induction lines as [|l lines IH]; intros temp; [done|].
  rewrite filter_cons, (upsert_lines_cons l lines).
  destruct (decide (blank l)) as [B|B].
  - rewrite decide_False by (intros H; by apply H). apply IH.
  - rewrite decide_True by done. rewrite upsert_lines_cons.
    rewrite decide_False by done. apply IH.
Qed.

Lemma parses_skip_blank lines :
  Forall parses (filter (λ l, ¬ blank l) lines) ↔ Forall parses lines.
Proof.
  rewrite !Forall_forall. split; intros H l Hl.
  - destruct (decide (blank l)) as [B|B]; [by left|].
    apply H. by apply list_elem_of_filter.
  - apply H. by apply list_elem_of_filter in Hl as [_ ?].
Qed.

(** X17. Blank lines carry nothing: a file and the file with its blank
    lines left out load into the same catalog, or both fail. *)
Theorem blank_lines_do_not_matter (fs : FileSystem)
    (path1 path2 content1 content2 : string) (cat : CourseCatalog.t) :
  fs path1 = Some content1 → fs path2 = Some content2 →
  getline_all LF content2
  = filter (λ l, ¬ blank l) (getline_all LF content1) →
  load fs path1 = inr cat ↔ load fs path2 = inr cat.
Proof.
  intros H1 H2 Hlines. rewrite !load_inr. split.
  - intros (content & Hc & HP & ->).
    assert (content = content1) as -> by congruence.
    exists content2. rewrite Hlines, parses_skip_blank.
    by rewrite upsert_lines_skip_blank.
  - intros (content & Hc & HP & ->).
    assert (content = content2) as -> by congruence.
    exists content1. rewrite Hlines, parses_skip_blank in HP.
    by rewrite Hlines, upsert_lines_skip_blank.
Qed.

Lemma blank_lines_do_not_matter_witness :
  load variant_fs "spaced.csv" = inr sample_catalog
  ↔ load variant_fs "courses.csv" = inr sample_catalog.
Proof.
  apply (blank_lines_do_not_matter variant_fs "spaced.csv" "courses.csv"
           courses_spaced_csv courses_csv); reflexivity.
Defined.

Lemma load_lines_trim_ext lines1 lines2 line_no temp :
  trim <$> lines1 = trim <$> lines2 →
  load_lines lines1 line_no temp = load_lines lines2 line_no temp.
Proof.
  revert lines2 line_no temp.
  induction lines1 as [|l1 lines1 IH]; intros [|l2 lines2] line_no temp H;
    try done.
  injection H as Hl H. cbn [load_lines]. rewrite Hl.
  case_decide; [by apply IH|].
  destruct (parse_fields _ (trim l2)); [done|by apply IH].
Qed.

(** X18. A load sees of each line its trimmed form only: two files
    whose lines agree once trimmed give the same result, the catalog or
    the error with its line number.  Lines ended by a carriage return
    and a line feed are a case of this: the carriage return left at the
    end of a line is trimmed away. *)
Theorem load_reads_trimmed_lines (fs : FileSystem)
    (path1 path2 content1 content2 : string) :
  (fs path1 = Some content1 → fs path2 = Some content2 →
   trim <$> getline_all LF content1 = trim <$> getline_all LF content2 →
   load fs path1 = load fs path2)
  ∧ (∀ lines : list string,
       trim <$> ((λ l, l +:+ String CR "") <$> lines) = trim <$> lines).
Proof.
  split.
  - intros H1 H2 H. unfold load. rewrite H1, H2.
    by apply load_lines_trim_ext.
  - intros lines. rewrite <- list_fmap_compose. apply list_fmap_ext.
    intros _ l _. cbn.
    rewrite <- (app_nil_l_string (l +:+ String CR "")).
    by apply (trim_ignores_outer_space_aux "" l (String CR "")).
Qed.

Lemma load_reads_trimmed_lines_witness :
  load variant_fs "crlf.csv" = load variant_fs "courses.csv".
Proof.
  apply (proj1 (load_reads_trimmed_lines variant_fs "crlf.csv" "courses.csv"
                  courses_crlf_csv courses_csv)); reflexivity.
Defined.

Lemma sorted_numbers_length cat :
  length (CourseCatalog.sorted_numbers cat) = size (CourseCatalog.data_ cat).
Proof.
  unfold CourseCatalog.sorted_numbers.
  by rewrite sort_keys_Permutation, length_fmap, length_map_to_list.
Qed.

Lemma upsert_lines_size lines :
  size (CourseCatalog.data_ (upsert_lines lines CourseCatalog.new))
  = length (remove_dups (file_ids lines)).
Proof.
  rewrite <- (size_dom (D:=gset string)), upsert_lines_dom.
  rewrite <- (size_list_to_set (C:=gset string)) by apply NoDup_remove_dups.
  f_equal. apply set_eq. intros k.
  by rewrite !elem_of_list_to_set, elem_of_remove_dups.
Qed.

(** X19. The number of courses that option 1 reports after a load is the
    number of distinct upper-cased identifiers in the file, not the
    number of its lines. *)
Theorem load_reports_distinct_identifiers (fs : FileSystem)
    (filename content : string) (catalog : CourseCatalog.t) :
  trim filename ≠ "" →
  fs (trim filename) = Some content →
  Forall parses (getline_all LF content) →
  (option_load fs filename catalog).1
  = "Data loaded successfully ("
    +:+ pretty (length (remove_dups (file_ids (getline_all LF content))))
    +:+ " courses)." +:+ nl +:+ nl.
Proof.
  intros Hne Hfs HP. unfold option_load, load_catalog_from_csv.
  rewrite decide_False by done.
  assert (load fs (trim filename)
          = inr (upsert_lines (getline_all LF content) CourseCatalog.new))
    as -> by (apply load_inr; eauto).
  cbn [fst]. by rewrite sorted_numbers_length, upsert_lines_size.
Qed.

Lemma load_reports_distinct_identifiers_witness :
  (option_load sample_fs " twice.csv " CourseCatalog.new).1
  = "Data loaded successfully (2 courses)." +:+ nl +:+ nl.
Proof.
  apply (load_reports_distinct_identifiers sample_fs " twice.csv " twice_csv).
  - vm_compute. discriminate.
  - reflexivity.
  - apply (bool_decide_unpack _). vm_compute. exact I.
Defined.

Lemma catalog_eq (a b : CourseCatalog.t) :
  CourseCatalog.data_ a = CourseCatalog.data_ b → a = b.
Proof. destruct a, b. cbn. by intros ->. Qed.

Lemma file_ids_cons l lines :
  file_ids (l :: lines)
  = if decide (blank l) then file_ids lines else line_id l :: file_ids lines.
Proof.
  unfold file_ids. rewrite filter_cons.
  destruct (decide (blank l)) as [B|B].
  - by rewrite decide_False by (intros H; by apply H).
  - by rewrite decide_True.
Qed.

Lemma one_line_per_id lines k :
  NoDup (file_ids lines) →
  length (filter (λ l, ¬ blank l ∧ line_id l = k) lines) ≤ 1.
Proof.
  induction lines as [|l lines IH]; [cbn; lia|].
  rewrite file_ids_cons, filter_cons. destruct (decide (blank l)) as [B|B].
  - rewrite decide_False by (by intros [? _]). apply IH.
  - intros [Hl Hn]%NoDup_cons. case_decide as E; [|by apply IH].
    rewrite filter_none; [cbn; lia|].
    intros l' Hin [B' E']. apply Hl. destruct E as [_ <-]. rewrite <- E'.
    unfold file_ids. apply list_elem_of_fmap. exists l'. split; [done|].
    by apply list_elem_of_filter.
Qed.

Lemma upsert_lines_Permutation lines1 lines2 temp :
  lines1 ≡ₚ lines2 → NoDup (file_ids lines1) →
  upsert_lines lines1 temp = upsert_lines lines2 temp.
Proof.
  intros HP Hn. apply catalog_eq, map_eq. intros k.
  rewrite !upsert_lines_lookup.
  pose proof (one_line_per_id lines1 k Hn) as Hlen.
  assert (filter (λ l, ¬ blank l ∧ line_id l = k) lines1
          ≡ₚ filter (λ l, ¬ blank l ∧ line_id l = k) lines2) as HF
    by by rewrite HP.
  destruct (filter _ lines1) as [|x [|y F]]; [| |cbn in Hlen; lia].
  - apply Permutation_nil_l in HF. by rewrite <- HF.
  - apply Permutation_singleton_l in HF. by rewrite <- HF.
Qed.

(** X20. When no identifier comes twice in a file, the order of its
    lines does not matter: a file with the same lines in another order
    loads into the same catalog, or both fail. *)
Theorem load_order_irrelevant (fs : FileSystem)
    (path1 path2 content1 content2 : string) (cat : CourseCatalog.t) :
  fs path1 = Some content1 → fs path2 = Some content2 →
  getline_all LF content1 ≡ₚ getline_all LF content2 →
  NoDup (file_ids (getline_all LF content1)) →
  load fs path1 = inr cat ↔ load fs path2 = inr cat.
Proof.
  intros H1 H2 HP Hn. rewrite !load_inr. split.
  - intros (content & Hc & Hparse & ->).
    assert (content = content1) as -> by congruence.
    exists content2. split_and!; [done|by rewrite <- HP|].
    by apply upsert_lines_Permutation.
  - intros (content & Hc & Hparse & ->).
    assert (content = content2) as -> by congruence.
    exists content1. split_and!; [done|by rewrite HP|].
    symmetry. by apply upsert_lines_Permutation.
Qed.

Lemma load_order_irrelevant_witness :
  load variant_fs "courses.csv" = inr sample_catalog
  ↔ load variant_fs "reversed.csv" = inr sample_catalog.
Proof.
  apply (load_order_irrelevant variant_fs "courses.csv" "reversed.csv"
           courses_csv courses_reversed_csv).
  - reflexivity.
  - reflexivity.
  - change (getline_all LF courses_csv)
      with (reverse (getline_all LF courses_reversed_csv)).
    apply reverse_Permutation.
  - apply (bool_decide_unpack _). vm_compute. exact I.
Defined.

(** ** The listing *)

Lemma print_course_lines_records cat keys :
  (∀ k, k ∈ keys → upper k = k ∧ is_Some (CourseCatalog.data_ cat !! k)) →
  ∃ records,
    Forall2 (λ k c, CourseCatalog.data_ cat !! k = Some c) keys records
    ∧ print_course_lines cat keys = concat_strings (course_line <$> records).
Proof.
  induction keys as [|k keys IH]; intros H.
  - by exists [].
  - destruct IH as (records & HF & Heq).
    { intros k' Hk'. apply H. by right. }
    destruct (H k) as [Hu [c Hc]]; [by left|].
    exists (c :: records). split; [by constructor|].
    cbn [print_course_lines fmap list_fmap concat_strings].
    unfold CourseCatalog.get. by rewrite Hu, Hc, Heq.
Qed.

(** X21. In a catalog the program can reach, the listing writes its
    header, then one line per record and no other, in the ascending
    order of the keys, then an empty line: no key of [sorted_numbers]
    fails to be found again. *)
Theorem listing_writes_every_course (cat : CourseCatalog.t) :
  reachable cat →
  ∃ records,
    Forall2 (λ k c, CourseCatalog.data_ cat !! k = Some c)
      (CourseCatalog.sorted_numbers cat) records
    ∧ length records = size (CourseCatalog.data_ cat)
    ∧ print_course_list cat
      = "Here is a sample schedule:" +:+ nl
        +:+ concat_strings (course_line <$> records) +:+ nl.
Proof.
  intros Hr.
  destruct (print_course_lines_records cat (CourseCatalog.sorted_numbers cat))
    as (records & HF & Heq).
  { intros k Hk%elem_of_sorted_numbers.
    split; [by apply (reachable_key_upper cat)|done]. }
  exists records. split_and!; [done| |].
  - by rewrite <- (Forall2_length _ _ _ HF), sorted_numbers_length.
  - unfold print_course_list. cbn zeta. by rewrite Heq.
Qed.

Lemma listing_writes_every_course_witness :
  ∃ records,
    Forall2 (λ k c, CourseCatalog.data_ sample_catalog !! k = Some c)
      (CourseCatalog.sorted_numbers sample_catalog) records
    ∧ length records = size (CourseCatalog.data_ sample_catalog)
    ∧ print_course_list sample_catalog
      = "Here is a sample schedule:" +:+ nl
        +:+ concat_strings (course_line <$> records) +:+ nl.
Proof.
  apply (listing_writes_every_course sample_catalog).
  change sample_catalog
    with (load_catalog_from_csv sample_fs "courses.csv"
            CourseCatalog.new "").1.2.
  apply reachable_load, reachable_new.
Defined.

Lemma invalid_option_refused_witness :
  main_loop sample_fs [" x "; "9"] sample_catalog
  = print_menu +:+ invalid_option "x"
    +:+ main_loop sample_fs ["9"] sample_catalog.
Proof.
  apply (invalid_option_refused sample_fs " x " ["9"] sample_catalog).
  - apply (bool_decide_unpack _). vm_compute. exact I.
  - vm_compute. lia.
Defined.

(** ** The order of the listing *)

(** X23. The sorted numbers of a loaded catalog are the distinct
    upper-cased identifiers of the file in ascending order, wherever
    their lines stand in the file. *)
Theorem loaded_sorted_numbers (fs : FileSystem) (file_path content : string)
    (cat : CourseCatalog.t) :
  fs file_path = Some content →
  load fs file_path = inr cat →
  CourseCatalog.sorted_numbers cat
  = CourseCatalog.sort_keys
      (remove_dups (file_ids (getline_all LF content))).
Proof.
  intros Hfs (content' & Hfs' & _ & ->)%load_inr.
  assert (content' = content) as -> by congruence.
  apply sort_keys_order_irrelevant.
  apply NoDup_Permutation;
    [apply NoDup_fst_map_to_list|apply NoDup_remove_dups|].
  intros k. rewrite elem_of_map_keys, elem_of_remove_dups.
  by rewrite <- elem_of_dom, upsert_lines_dom, elem_of_list_to_set.
Qed.

Lemma loaded_sorted_numbers_witness :
  CourseCatalog.sorted_numbers
    (upsert_lines (getline_all LF twice_csv) CourseCatalog.new)
  = CourseCatalog.sort_keys
      (remove_dups (file_ids (getline_all LF twice_csv))).
Proof.
  apply (loaded_sorted_numbers sample_fs "twice.csv" twice_csv).
  - reflexivity.
  - vm_compute. reflexivity.
Defined.

(** * Normal forms *)

(** What [trim] and [upper] do, said on the characters and not through
    the two functions. *)

Lemma trim_empty_all_space s :
  trim s = "" ↔ all_chars is_space_or_cntrl s = true.
Proof.
  split.
  - intros H. destruct (trim_front_split s) as (pre & H1 & H2).
    destruct (trim_back_split (trim_front s)) as (post & H3 & H4).
    fold (trim s) in H3. rewrite H in H3. rewrite app_nil_l_string in H3.
    rewrite H1, H3, all_chars_app. by rewrite H2, H4.
  - intros H. unfold trim. by apply trim_front_all_space in H as ->.
Qed.

Lemma trim_trimmed_of raw : trimmed_of raw (trim raw).
Proof.
  split; [apply trim_no_outer_space|].
  destruct (trim_front_split raw) as (pre & H1 & H2).
  destruct (trim_back_split (trim_front raw)) as (post & H3 & H4).
  exists pre, post. split; [|done]. unfold trim. by rewrite <- H3.
Qed.

Lemma upper_upper_of s : upper_of s (upper s).
Proof.
  split.
  - induction s as [|c s IH]; [done|]. cbn. by rewrite IH.
  - induction s as [|c s IH]; intros i a b; [done|].
    destruct i as [|i]; cbn.
    + intros [= <-] [= <-]. destruct (is_lower c) eqn:E.
      * by apply toupper_lower.
      * by apply toupper_fixed.
    + apply IH.
Qed.

Lemma upper_no_lower s :
  all_chars (λ a, negb (is_lower a)) (upper s) = true.
Proof.
  induction s as [|c s IH]; [done|]. cbn. by rewrite toupper_not_lower, IH.
Qed.

Lemma trim_upper_normal_form raw : normal_form raw (upper (trim raw)).
Proof. exists (trim raw). split; [apply trim_trimmed_of|apply upper_upper_of]. Qed.

Lemma is_space_toupper c : is_space_or_cntrl (toupper c) = is_space_or_cntrl c.
Proof. destruct c as [[] [] [] [] [] [] [] []]; reflexivity. Qed.

Lemma first_char_upper s : first_char (upper s) = toupper <$> first_char s.
Proof. by destruct s. Qed.

Lemma last_char_upper s : last_char (upper s) = toupper <$> last_char s.
Proof.
  induction s as [|c s IH]; [done|]. destruct s as [|c' s]; [done|].
  exact IH.
Qed.

Lemma upper_no_outer_space s : no_outer_space s → no_outer_space (upper s).
Proof.
  intros [H1 H2]. split; intros c.
  - rewrite first_char_upper. destruct (first_char s) as [a|]; [|done].
    intros [= <-]. rewrite is_space_toupper. by apply H1.
  - rewrite last_char_upper. destruct (last_char s) as [a|]; [|done].
    intros [= <-]. rewrite is_space_toupper. by apply H2.
Qed.

Lemma nth_fmap_trim i (items : list string) :
  nth i (trim <$> items) "" = trim (nth i items "").
Proof.
  revert i. induction items as [|x items IH]; intros [|i]; cbn;
    [done|done|done|apply IH].
Qed.

Lemma line_id_normal_form l :
  normal_form (nth 0 (raw_fields l) "") (line_id l).
Proof.
  unfold line_id, fields_of, split_csv_simple. fold (raw_fields l).
  rewrite nth_fmap_trim. apply trim_upper_normal_form.
Qed.

Lemma line_title_trimmed_of l :
  trimmed_of (nth 1 (raw_fields l) "") (line_title l).
Proof.
  unfold line_title, fields_of, split_csv_simple. fold (raw_fields l).
  rewrite nth_fmap_trim. apply trim_trimmed_of.
Qed.

(** The prerequisites kept from a list of raw fields. *)
Lemma prereqs_normal_forms (raws : list string) :
  Forall2 normal_form
    (filter (λ r, all_chars is_space_or_cntrl r = false) raws)
    (filter (λ p, p ≠ "") (upper <$> (trim <$> raws)))
  ∧ Forall (λ p, p ≠ "" ∧ no_outer_space p
                 ∧ all_chars (λ a, negb (is_lower a)) p = true)
      (filter (λ p, p ≠ "") (upper <$> (trim <$> raws))).
Proof.
  induction raws as [|r raws [IH1 IH2]]; [by split; constructor|].
  rewrite !fmap_cons, !filter_cons.
  destruct (all_chars is_space_or_cntrl r) eqn:E.
  - rewrite decide_False by done.
    apply trim_empty_all_space in E. rewrite E.
    by rewrite decide_False by (intros H; by apply H).
  - rewrite decide_True by done.
    assert (upper (trim r) ≠ "") as Hne.
    { rewrite upper_empty, trim_empty_all_space. by rewrite E. }
    rewrite decide_True by done. split; constructor; try done.
    + apply trim_upper_normal_form.
    + split_and!; [done| |apply upper_no_lower].
      apply upper_no_outer_space, trim_no_outer_space.
Qed.

Lemma line_prereqs_raw l :
  line_prereqs l
  = filter (λ p, p ≠ "") (upper <$> (trim <$> drop 2 (raw_fields l))).
Proof.
  unfold line_prereqs, fields_of, split_csv_simple. fold (raw_fields l).
  by rewrite (fmap_drop trim).
Qed.

Lemma upper_fixed_no_lower s :
  all_chars (λ a, negb (is_lower a)) s = true → upper s = s.
Proof.
  induction s as [|c s IH]; [done|]. cbn.
  intros [Hc Hs]%andb_prop. rewrite IH by done.
  rewrite toupper_fixed; [done|]. by destruct (is_lower c).
Qed.

(** ** Keys *)

(** C4. In every catalog that upserts, clears and loads (successful or
    not) can produce from the empty one, each key is the upper-cased
    number of the record stored under it: it is what [upper] returns for
    the number, it has the characters of the number with each
    lower-case letter replaced by its capital and every other character
    kept, and no lower-case letter is left in it. *)
Theorem reachable_keys_consistent (cat : CourseCatalog.t) :
  reachable cat →
  ∀ k c,
    CourseCatalog.data_ cat !! k = Some c →
    k = upper (number c)
    ∧ upper_of (number c) k
    ∧ all_chars (λ a, negb (is_lower a)) k = true.
Proof.
  intros H k c Hc. rewrite (reachable_invariant _ H _ _ Hc).
  split_and!; [done|apply upper_upper_of|apply upper_no_lower].
Qed.

Lemma reachable_keys_consistent_witness :
  "CS-50A" = upper "cs-50a"
  ∧ upper_of "cs-50a" "CS-50A"
  ∧ all_chars (λ a, negb (is_lower a)) "CS-50A" = true.
Proof.
  apply (reachable_keys_consistent
           (CourseCatalog.upsert (mkCourse "cs-50a" "Seminar" [])
              (load_catalog_from_csv (single_file "padded.csv" padded_csv)
                 "padded.csv" CourseCatalog.new "").1.2)
           (reachable_upsert _ _
              (reachable_load _ _ _ _ reachable_new))
           "CS-50A" (mkCourse "cs-50a" "Seminar" [])).
  vm_compute. reflexivity.
Defined.

(** ** Last write wins, on the fields as read *)

(** C2. After a successful load the catalog holds one record for each
    distinct upper-cased identifier of the file's lines and no other,
    and no key has a lower-case letter.  The record under an identifier
    is the one built from the last line that carries it (in any case):
    its number is the first field of that line without the white space
    around it and in upper case, and its title is the second field of
    that line without the white space around it. *)
Theorem load_last_write_wins (fs : FileSystem) (file_path content : string)
    (cat : CourseCatalog.t) :
  fs file_path = Some content →
  load fs file_path = inr cat →
  dom (CourseCatalog.data_ cat)
    =@{gset string} list_to_set (file_ids (getline_all LF content))
  ∧ size (CourseCatalog.data_ cat)
    = length (remove_dups (file_ids (getline_all LF content)))
  ∧ (∀ k, is_Some (CourseCatalog.data_ cat !! k) →
          all_chars (λ a, negb (is_lower a)) k = true)
  ∧ (∀ pre l post,
       getline_all LF content = pre ++ l :: post →
       ¬ blank l →
       (∀ l', l' ∈ post → ¬ blank l' → line_id l' ≠ line_id l) →
       ∃ c,
         CourseCatalog.data_ cat !! line_id l = Some c
         ∧ CourseCatalog.get cat (nth 0 (fields_of l) "") = Some c
         ∧ c = record_of l
         ∧ normal_form (nth 0 (raw_fields l) "") (number c)
         ∧ trimmed_of (nth 1 (raw_fields l) "") (title c)).
Proof.
  intros Hfs Hload.
  apply load_inr in Hload as (content' & Hfs' & _ & ->).
  assert (content' = content) as -> by congruence.
  split_and!.
  - apply upsert_lines_dom.
  - apply upsert_lines_size.
  - intros k Hk. apply elem_of_dom in Hk.
    rewrite upsert_lines_dom, elem_of_list_to_set in Hk.
    unfold file_ids in Hk.
    apply list_elem_of_fmap in Hk as (l & -> & _). apply upper_no_lower.
  - intros pre l post Hlines Hb Hpost.
    assert (CourseCatalog.data_
              (upsert_lines (getline_all LF content) CourseCatalog.new)
              !! line_id l = Some (record_of l)) as Hl.
    { rewrite upsert_lines_lookup, Hlines, filter_app, filter_cons.
      rewrite decide_True by done.
      replace (filter _ post) with (@nil string).
      - by rewrite last_snoc.
      - symmetry. apply filter_none.
        intros l' Hin [? ?]. by apply (Hpost l'). }
    exists (record_of l). split_and!; [done|apply Hl|done|..].
    + apply line_id_normal_form.
    + apply line_title_trimmed_of.
Qed.

Lemma load_last_write_wins_witness :
  ∃ c,
    CourseCatalog.data_
      (upsert_lines (getline_all LF padded_csv) CourseCatalog.new)
      !! "CSCI101" = Some c
    ∧ CourseCatalog.get
        (upsert_lines (getline_all LF padded_csv) CourseCatalog.new)
        "CsCi101" = Some c
    ∧ c = mkCourse "CSCI101" "Bar" ["MATH201"; "CSCI100"]
    ∧ normal_form "CsCi101 " (number c)
    ∧ trimmed_of "  Bar  " (title c).
Proof.
  refine (proj2 (proj2 (proj2
            (load_last_write_wins (single_file "padded.csv" padded_csv)
               "padded.csv" padded_csv
               (upsert_lines (getline_all LF padded_csv) CourseCatalog.new)
               _ _)))
            ["csci101, Foo"; " math201 ,Calculus, ,"]
            " CsCi101 ,  Bar  , ,math201 ,  , csci100" [] _ _ _).
  - reflexivity.
  - vm_compute. reflexivity.
  - reflexivity.
  - vm_compute. discriminate.
  - intros l' Hin. by apply not_elem_of_nil in Hin.
Defined.

(** ** Prerequisites, on the fields as read *)

(** C9. The record built from a line has as prerequisites the fields
    from the third on, in the order of the line, each without the white
    space around it and in upper case, the fields that trimming leaves
    empty (those of white space only) being left out: none of the
    prerequisites is empty, starts or ends with white space or has a
    lower-case letter.  For a course of a loaded catalog the detail view
    writes the number and the title, then the prerequisites as they are
    stored, in order and separated by a comma and a space, or [None]
    when there is none; whether a prerequisite is itself a course of the
    catalog makes no difference to what is written for it. *)
Theorem prerequisites_stored_and_shown :
  (∀ line_no line c,
     parse_fields line_no line = inr c →
     prereqs c
     = filter (λ p, p ≠ "") (upper <$> drop 2 (split_csv_simple line)))
  ∧ (∀ line_no line c,
       parse_fields line_no line = inr c →
       Forall2 normal_form
         (filter (λ r, all_chars is_space_or_cntrl r = false)
            (drop 2 (getline_all ","%char line)))
         (prereqs c)
       ∧ Forall (λ p, p ≠ "" ∧ no_outer_space p
                      ∧ all_chars (λ a, negb (is_lower a)) p = true)
           (prereqs c))
  ∧ (∀ fs file_path cat user_input_number c,
       load fs file_path = inr cat →
       CourseCatalog.get cat user_input_number = Some c →
       print_course_details cat user_input_number
       = number c +:+ ", " +:+ title c +:+ nl
         +:+ "Prerequisites: "
         +:+ match prereqs c with [] => "None" | ps => join ", " ps end
         +:+ nl +:+ nl)
  ∧ (∀ fs file_path cat c pnum,
       load fs file_path = inr cat →
       c ∈ (map_to_list (CourseCatalog.data_ cat)).*2 →
       pnum ∈ prereqs c →
       match CourseCatalog.get cat pnum with
       | Some pc => number pc
       | None => pnum
       end = pnum).
Proof.
  assert (∀ line_no line c,
            parse_fields line_no line = inr c →
            prereqs c
            = filter (λ p, p ≠ "") (upper <$> drop 2 (split_csv_simple line)))
    as Hstored.
  { intros line_no line c. unfold parse_fields.
    repeat case_decide; try done. intros [= <-]. cbn [prereqs].
    by rewrite push_prereqs_filter. }
  split_and!.
  - done.
  - intros line_no line c Hc. rewrite (Hstored _ _ _ Hc).
    unfold split_csv_simple. rewrite <- (fmap_drop trim).
    apply prereqs_normal_forms.
  - intros fs file_path cat q c Hload Hget.
    apply load_normalized in Hload.
    unfold print_course_details. cbn zeta.
    assert (CourseCatalog.get cat (upper q) = Some c) as ->.
    { unfold CourseCatalog.get in *. by rewrite upper_idem. }
    destruct (Hload _ _ Hget) as (_ & _ & Hps).
    destruct (prereqs c) as [|p ps] eqn:E; [done|].
    by rewrite print_prereqs_join.
  - intros fs file_path cat c pnum Hload Hc Hp.
    apply load_normalized in Hload.
    apply list_elem_of_fmap in Hc as ([k c'] & -> & Hc).
    apply elem_of_map_to_list in Hc. cbn [snd] in Hp.
    destruct (Hload _ _ Hc) as (_ & _ & Hps).
    rewrite Forall_forall in Hps. specialize (Hps _ Hp).
    unfold CourseCatalog.get. rewrite Hps.
    destruct (CourseCatalog.data_ cat !! pnum) as [pc|] eqn:E; [|done].
    by apply Hload in E as [? _].
Qed.

Lemma prerequisites_stored_and_shown_witness :
  Forall2 normal_form ["math201 "; " csci100"] ["MATH201"; "CSCI100"]
  ∧ print_course_details
      (upsert_lines (getline_all LF padded_csv) CourseCatalog.new) "csci101"
    = "CSCI101, Bar" +:+ nl
      +:+ "Prerequisites: MATH201, CSCI100" +:+ nl +:+ nl.
Proof.
  split.
  - apply (proj1 (proj2 prerequisites_stored_and_shown) 3%N
             "CsCi101 ,  Bar  , ,math201 ,  , csci100"
             (mkCourse "CSCI101" "Bar" ["MATH201"; "CSCI100"])).
    vm_compute. reflexivity.
  - apply (proj1 (proj2 (proj2 prerequisites_stored_and_shown))
             (single_file "padded.csv" padded_csv) "padded.csv"
             (upsert_lines (getline_all LF padded_csv) CourseCatalog.new)
             "csci101"
             (mkCourse "CSCI101" "Bar" ["MATH201"; "CSCI100"])).
    + vm_compute. reflexivity.
    + vm_compute. reflexivity.
Defined.

(** ** Loaded records, on the characters *)

(** X16. Every record of a loaded catalog is well formed.  It sits under
    its own number, which is not empty, has no lower-case letter and no
    white space at either end.  Its title is not empty and has no white
    space at either end.  Each of its prerequisites is a non-empty
    string without lower-case letter and without white space at either
    end.  The number and the prerequisites are left as they are by
    [upper], the title by [trim]. *)
Theorem loaded_records_well_formed (fs : FileSystem) (file_path : string)
    (cat : CourseCatalog.t) (k : string) (c : Course) :
  load fs file_path = inr cat →
  CourseCatalog.data_ cat !! k = Some c →
  number c = k ∧ k ≠ "" ∧ upper k = k
  ∧ all_chars (λ a, negb (is_lower a)) k = true
  ∧ no_outer_space k
  ∧ title c ≠ "" ∧ trim (title c) = title c
  ∧ no_outer_space (title c)
  ∧ Forall (λ p, p ≠ "" ∧ upper p = p ∧ no_outer_space p
                 ∧ all_chars (λ a, negb (is_lower a)) p = true)
      (prereqs c).
Proof.
  intros (content & _ & Hlines & ->)%load_inr. revert k c.
  apply (upsert_lines_ind_parses
           (λ cat, ∀ k c, CourseCatalog.data_ cat !! k = Some c → _));
    [done| |].
  - intros k c. cbn. by rewrite lookup_empty.
  - intros l cat (Hlen & Hid & Htitle) IH k c.
    unfold CourseCatalog.upsert. cbn [CourseCatalog.data_ number record_of].
    rewrite line_id_upper, lookup_insert. case_decide as E; [|apply IH].
    intros [= <-]. subst k. cbn [number title prereqs].
    split_and!; [done|done|apply line_id_upper|apply upper_no_lower| |done
                 |apply nth_trimmed| |].
    + unfold line_id, fields_of, split_csv_simple. rewrite nth_fmap_trim.
      apply upper_no_outer_space, trim_no_outer_space.
    + exact (proj1 (line_title_trimmed_of l)).
    + change (prereqs (record_of l)) with (line_prereqs l).
      rewrite line_prereqs_raw.
      destruct (prereqs_normal_forms (drop 2 (raw_fields l))) as [_ HF].
      eapply Forall_impl; [exact HF|]. cbn. intros p (Hp & Hs & Hl).
      split_and!; [done| |done..].
      by apply upper_fixed_no_lower.
Qed.

Lemma loaded_records_well_formed_witness :
  all_chars (λ a, negb (is_lower a)) "CSCI101" = true
  ∧ no_outer_space "CSCI101"
  ∧ no_outer_space "Bar"
  ∧ Forall (λ p, p ≠ "" ∧ upper p = p ∧ no_outer_space p
                 ∧ all_chars (λ a, negb (is_lower a)) p = true)
      ["MATH201"; "CSCI100"].
Proof.
  destruct (loaded_records_well_formed
              (single_file "padded.csv" padded_csv) "padded.csv"
              (upsert_lines (getline_all LF padded_csv) CourseCatalog.new)
              "CSCI101"
              (mkCourse "CSCI101" "Bar" ["MATH201"; "CSCI100"]))
    as (_ & _ & _ & H1 & H2 & _ & _ & H3 & H4).
  - vm_compute. reflexivity.
  - vm_compute. reflexivity.
  - exact (conj H1 (conj H2 (conj H3 H4))).
Defined.
